(** * Flatland world orchestrator: [flatland_server/src/world.cpp]

    A shallow embedding of [World] (construction from a YAML description,
    the step loop and the teardown order) together with the properties of
    its specification.  Heap objects reached through raw pointers (the
    Box2D world, layers, models) live in finite maps indexed by address;
    every call that leaves [world.cpp] is recorded in a trace, so that
    ordering properties can be stated on the trace and ownership
    properties on the heaps.

    The contact callbacks Box2D raises during a step reach the plugin
    manager through the world, which is the contact listener of its
    engine.

    Not modelled: the ROS log messages and the service manager member. *)

From Stdlib Require Import ZArith Ascii String DecimalString.
From stdpp Require Import gmap strings list.

(** ** Strings *)

(** The double-quote character; message texts of the source contain it
    escaped. *)
Definition dquote : string := String "034"%char EmptyString.

Definition quoted (s : string) : string := dquote +:+ s +:+ dquote.

(** [std::to_string] on an [int]. *)
Definition to_string (z : Z) : string := NilZero.string_of_int (Z.to_int z).

(** [std::string::front]: the first character; the call requires a
    non-empty string, [None] stands for the undefined access. *)
Definition front (s : string) : option ascii :=
  match s with
  | EmptyString => None
  | String c _ => Some c
  end.

(** [s] occurs in [t] as a substring. *)
Fixpoint contains (s t : string) : bool :=
  String.prefix s t ||
  match t with
  | EmptyString => false
  | String _ t' => contains s t'
  end.

(** ** boost::filesystem paths (POSIX)

    [boost::filesystem::path] keeps the string it was built from;
    [path.string()] gives it back.  The two operations [world.cpp] uses
    are modelled on strings, for paths that do not start with a [//net]
    root name. *)

Definition is_separator (c : ascii) : bool := Ascii.eqb c "/"%char.

Fixpoint last_char (s : string) : option ascii :=
  match s with
  | EmptyString => None
  | String c EmptyString => Some c
  | String _ s' => last_char s'
  end.

(** [p / q]: [q] is appended, with a separator in between unless [q]
    starts with one or [p] is empty or ends with one. *)
Definition path_append (p q : string) : string :=
  match q with
  | EmptyString => p
  | String c _ =>
      if is_separator c then p +:+ q
      else match last_char p with
           | None => q
           | Some d => if is_separator d then p +:+ q
                       else p +:+ String "/"%char q
           end
  end.

(** Trailing separators of the reversed prefix are skipped, the root
    directory (a separator at index 0) is kept. *)
Fixpoint strip_separators (r : list ascii) : list ascii :=
  match r with
  | c :: ((_ :: _) as r') => if is_separator c then strip_separators r' else r
  | _ => r
  end.

Fixpoint drop_filename (r : list ascii) : list ascii :=
  match r with
  | [] => []
  | c :: r' => if is_separator c then r else drop_filename r'
  end.

(** [path::parent_path]: the path without its last element. *)
Definition parent_path (p : string) : string :=
  let r := rev (list_ascii_of_string p) in
  let prefix :=
    match r with
    | [] => []
    | c :: r' => if is_separator c then r' else drop_filename r
    end in
  string_of_list_ascii (rev (strip_separators prefix)).

(** ** yaml-cpp nodes *)

#[warnings="-register-all"]
Inductive Node :=
| Undefined
| Null
| Scalar (s : string)
| Sequence (l : list Node)
| Map (kv : list (string * Node)).

(** [operator bool] of a node: [IsDefined]. *)
Definition IsDefined (n : Node) : bool :=
  match n with Undefined => false | _ => true end.

Definition IsSequence (n : Node) : bool :=
  match n with Sequence _ => true | _ => false end.

Definition IsMap (n : Node) : bool :=
  match n with Map _ => true | _ => false end.

(** [node.size()]: the number of entries of a sequence or a map, 0 for
    the other node types. *)
Definition node_size (n : Node) : nat :=
  match n with
  | Sequence l => length l
  | Map kv => length kv
  | _ => 0
  end.

Fixpoint assoc (key : string) (kv : list (string * Node)) : Node :=
  match kv with
  | [] => Undefined
  | (k, v) :: kv' => if String.eqb k key then v else assoc key kv'
  end.

(** [node[i]] with an integer index, on a sequence. *)
Definition node_index (n : Node) (i : nat) : Node :=
  match n with
  | Sequence l => default Undefined (l !! i)
  | _ => Undefined
  end.

(** ** Exceptions *)

(** Modelled from the spec: the exception classes of
    [flatland_server/exceptions.h], which is not part of the sources.
    The description error of the specification is [YAMLException]; its
    three constructors keep their arguments.  It derives from yaml-cpp's
    [YAML::Exception], so that the handler [catch (const YAML::Exception &)]
    of [MakeWorld] receives the description errors of the loaders, as the
    specification requires.  [PluginException] is the plugin-loading
    error.  [OtherException] stands for any exception of another class. *)
Inductive Exn :=
| YAML_Exception (what : string)
| YAMLException (msg : string)
| YAMLException_with (msg : string) (cause : Exn)
| YAMLException_from (cause : Exn)
| PluginException (msg : string)
| OtherException (what : string).

(** Whether [catch (const YAML::Exception &)] matches. *)
Definition is_YAML_Exception (e : Exn) : bool :=
  match e with
  | YAML_Exception _ | YAMLException _
  | YAMLException_with _ _ | YAMLException_from _ => true
  | _ => false
  end.

(** Whether [catch (const PluginException &)] matches. *)
Definition is_PluginException (e : Exn) : bool :=
  match e with PluginException _ => true | _ => false end.


(** [node[key]] with a string key: the value of a map, an undefined node
    when the key is missing or the node is null or a sequence;
    subscripting a scalar throws [YAML::BadSubscript]. *)
Definition node_get (n : Node) (key : string) : Exn + Node :=
  match n with
  | Map kv => inr (assoc key kv)
  | Scalar _ => inl (YAML_Exception "operator[] call on a scalar")
  | _ => inr Undefined
  end.

(** [node.as<std::string>()]: the text of a scalar,
    [YAML::TypedBadConversion] otherwise. *)
Definition as_string (n : Node) : Exn + string :=
  match n with
  | Scalar s => inr s
  | _ => inl (YAML_Exception "bad conversion")
  end.

(** ** Outcomes and the state-and-exception monad *)

(** A call returns, throws, or has undefined behaviour (a dangling
    pointer is dereferenced, [front] is called on an empty string).  The
    state reached when an exception is thrown is kept: the handler of
    [MakeWorld] destroys the world as the loaders left it. *)
Inductive Outcome (T A : Type) :=
| Ok (a : A) (s : T)
| Throw (e : Exn) (s : T)
| Undef.

Arguments Ok {T A} a s.
Arguments Throw {T A} e s.
Arguments Undef {T A}.

Definition M (T A : Type) : Type := T → Outcome T A.

Definition ret {T A} (a : A) : M T A := fun s => Ok a s.

Definition bind {T A B} (m : M T A) (k : A → M T B) : M T B :=
  fun s =>
    match m s with
    | Ok a s' => k a s'
    | Throw e s' => Throw e s'
    | Undef => Undef
    end.

Definition throw {T A} (e : Exn) : M T A := fun s => Throw e s.

Definition undefined {T A} : M T A := fun _ => Undef.

(** A call into yaml-cpp: its exception propagates. *)
Definition lift {T A} (r : Exn + A) : M T A :=
  match r with
  | inl e => throw e
  | inr a => ret a
  end.

Definition get {T} : M T T := fun s => Ok s s.

Definition modify {T} (f : T → T) : M T unit := fun s => Ok tt (f s).

Declare Scope cpp_scope.
Delimit Scope cpp_scope with cpp.
Notation "x <- m ;; k" := (bind m (fun x => k))
  (at level 100, m at next level, right associativity) : cpp_scope.
Notation "m ;; k" := (bind m (fun _ => k))
  (at level 100, right associativity) : cpp_scope.
Open Scope cpp_scope.

(** [for (int i = 0; i < n; i++) body]: the bounds of the loops of
    [world.cpp] (sizes of vectors and of YAML sequences) do not change
    while the loop runs, and stay far below [INT_MAX]. *)
Fixpoint for_from {T} (i count : nat) (body : nat → M T unit) : M T unit :=
  match count with
  | O => ret tt
  | S k => body i ;; for_from (S i) k body
  end.

Definition for_range {T} (n : nat) (body : nat → M T unit) : M T unit :=
  for_from 0 n body.

(** Range-based [for] over the elements of a sequence. *)
Fixpoint for_each {T A} (l : list A) (body : A → M T unit) : M T unit :=
  match l with
  | [] => ret tt
  | x :: l' => body x ;; for_each l' body
  end.

(** ** Heap objects *)

Definition addr := nat.

(** [Body]: the wrapper a layer owns around its Box2D body. *)
Record Body := { physics_body_ : option addr }.

(** [Layer]: the fields [world.cpp] touches; [body_] is owned by the
    layer alone and is kept by value. *)
Record Layer := { name_ : string; body_ : Body }.

(** The Box2D world, as far as [world.cpp] drives it: whether the
    [World] is registered as its contact listener. *)
Record b2World := { m_contactListener : bool }.

(** ** Collaborators

    What [world.cpp] calls and does not define: the conversion of a YAML
    scalar to [double], [YAML::LoadFile], the timekeeper, the collision
    filter registry, the layer and model builders and the plugin manager.
    [LoadFile] gives the text of the yaml-cpp exception when it fails; the
    file system does not change while a world is built.  A builder that
    throws leaves the registry as it was. *)
Class Collaborators := {
  double : Type;
  parse_double : string → option double;
  LoadFile : string → string + Node;
  Timekeeper : Type;
  GetStepSize : Timekeeper → double;
  StepTime : Timekeeper → Timekeeper;
  CollisionFilterRegistry : Type;
  cfr_new : CollisionFilterRegistry;
  IsLayersFull : CollisionFilterRegistry → bool;
  MAX_LAYERS : Z;
  Layer_MakeLayer :
    addr → CollisionFilterRegistry → string → Node →
    Exn + (Layer * CollisionFilterRegistry);
  Model : Type;
  model_name_ : Model → string;
  plugins_node_ : Model → Node;
  Model_MakeModel :
    addr → CollisionFilterRegistry → string → string → string →
    Exn + (Model * CollisionFilterRegistry);
  Model_TransformAll : double * double * double → Model → Model;
  PluginManager : Type;
  pm_new : PluginManager;
  PM_LoadModelPlugin : PluginManager → addr → Model → Node → Exn + PluginManager;
  PM_BeforePhysicsStep : Timekeeper → PluginManager → PluginManager;
  PM_AfterPhysicsStep : Timekeeper → PluginManager → PluginManager
}.

Section World.
Context {X : Collaborators}.

Definition Pose : Type := double * double * double.

(** [node.as<double>()]. *)
Definition as_double (n : Node) : Exn + double :=
  match n with
  | Scalar s =>
      match parse_double s with
      | Some d => inr d
      | None => inl (YAML_Exception "bad conversion")
      end
  | _ => inl (YAML_Exception "bad conversion")
  end.

(** ** Trace of the calls that leave [world.cpp] *)

(** The time step of [EvStep] is the value the engine receives, after
    the conversion to [float32]. *)
Inductive Event :=
| EvNewPhysicsWorld (pw : addr)
| EvSetContactListener (pw : addr) (listener : bool)
| EvMakeLayer (l : addr) (dir : string) (node : Node)
| EvNullPhysicsBody (l : addr)
| EvDeleteLayer (l : addr) (obj : Layer)
| EvMakeModel (m : addr) (path ns name : string)
| EvTransformAll (m : addr) (pose : Pose)
| EvLoadModelPlugin (m : addr) (node : Node)
| EvDeleteModel (m : addr)
| EvDeletePhysicsWorld (pw : addr)
| EvBeforePhysicsStep (tk : Timekeeper)
| EvStep (pw : addr) (timeStep : double)
    (velocityIterations positionIterations : Z)
| EvStepTime (tk : Timekeeper)
| EvAfterPhysicsStep (tk : Timekeeper).

(** ** State *)

Record Env := {
  physics_heap : gmap addr b2World;
  layer_heap : gmap addr Layer;
  model_heap : gmap addr Model;
  trace : list Event
}.

Record World := {
  physics_world_ : addr;
  layers_ : list addr;
  models_ : list addr;
  cfr_ : CollisionFilterRegistry;
  plugin_manager_ : PluginManager
}.

(** A method of [World] runs on the object and the environment. *)
Record WState := { this : World; env : Env }.

Definition set_physics_heap (h : gmap addr b2World) (s : Env) : Env :=
  {| physics_heap := h; layer_heap := layer_heap s;
     model_heap := model_heap s; trace := trace s |}.

Definition set_layer_heap (h : gmap addr Layer) (s : Env) : Env :=
  {| physics_heap := physics_heap s; layer_heap := h;
     model_heap := model_heap s; trace := trace s |}.

Definition set_model_heap (h : gmap addr Model) (s : Env) : Env :=
  {| physics_heap := physics_heap s; layer_heap := layer_heap s;
     model_heap := h; trace := trace s |}.

Definition log (ev : Event) (s : Env) : Env :=
  {| physics_heap := physics_heap s; layer_heap := layer_heap s;
     model_heap := model_heap s; trace := trace s ++ [ev] |}.

Definition set_layers (l : list addr) (w : World) : World :=
  {| physics_world_ := physics_world_ w; layers_ := l; models_ := models_ w;
     cfr_ := cfr_ w; plugin_manager_ := plugin_manager_ w |}.

Definition set_models (l : list addr) (w : World) : World :=
  {| physics_world_ := physics_world_ w; layers_ := layers_ w; models_ := l;
     cfr_ := cfr_ w; plugin_manager_ := plugin_manager_ w |}.

Definition set_cfr (c : CollisionFilterRegistry) (w : World) : World :=
  {| physics_world_ := physics_world_ w; layers_ := layers_ w;
     models_ := models_ w; cfr_ := c; plugin_manager_ := plugin_manager_ w |}.

Definition set_plugin_manager (pm : PluginManager) (w : World) : World :=
  {| physics_world_ := physics_world_ w; layers_ := layers_ w;
     models_ := models_ w; cfr_ := cfr_ w; plugin_manager_ := pm |}.

Definition on_env (f : Env → Env) (st : WState) : WState :=
  {| this := this st; env := f (env st) |}.

Definition on_this (f : World → World) (st : WState) : WState :=
  {| this := f (this st); env := env st |}.

(** ** Box2D *)

(** [new b2World(gravity)]. *)
Definition new_b2World : M Env addr :=
  fun s =>
    let pw := fresh (dom (physics_heap s)) in
    Ok pw (log (EvNewPhysicsWorld pw)
             (set_physics_heap
                (<[pw := {| m_contactListener := false |}]> (physics_heap s)) s)).

(** [pw->SetContactListener(listener)]; [true] registers the world,
    [false] is [nullptr]. *)
Definition b2World_SetContactListener (pw : addr) (listener : bool) : M Env unit :=
  fun s =>
    match physics_heap s !! pw with
    | None => Undef
    | Some _ =>
        Ok tt (log (EvSetContactListener pw listener)
                 (set_physics_heap
                    (<[pw := {| m_contactListener := listener |}]> (physics_heap s)) s))
    end.

(** [delete pw]. *)
Definition delete_b2World (pw : addr) : M Env unit :=
  fun s =>
    match physics_heap s !! pw with
    | None => Undef
    | Some _ =>
        Ok tt (log (EvDeletePhysicsWorld pw)
                 (set_physics_heap (delete pw (physics_heap s)) s))
    end.

(** ** Layers and models on the heap *)

(** [l->body_->physics_body_ = nullptr]. *)
Definition null_physics_body (l : addr) : M Env unit :=
  fun s =>
    match layer_heap s !! l with
    | None => Undef
    | Some obj =>
        Ok tt (log (EvNullPhysicsBody l)
                 (set_layer_heap
                    (<[l := {| name_ := name_ obj;
                               body_ := {| physics_body_ := None |} |}]>
                       (layer_heap s)) s))
    end.

(** [delete l]: the event keeps the object as its destructor finds it. *)
Definition delete_Layer (l : addr) : M Env unit :=
  fun s =>
    match layer_heap s !! l with
    | None => Undef
    | Some obj =>
        Ok tt (log (EvDeleteLayer l obj)
                 (set_layer_heap (delete l (layer_heap s)) s))
    end.

(** [delete m]. *)
Definition delete_Model (m : addr) : M Env unit :=
  fun s =>
    match model_heap s !! m with
    | None => Undef
    | Some _ =>
        Ok tt (log (EvDeleteModel m)
                 (set_model_heap (delete m (model_heap s)) s))
    end.

(** [v[i]] on a [std::vector]: out of range is undefined. *)
Definition vector_at {T} (v : list addr) (i : nat) : M T addr :=
  match v !! i with
  | Some a => ret a
  | None => undefined
  end.

(** An operation on the environment, called from a method. *)
Definition in_env {A} (m : M Env A) : M WState A :=
  fun st =>
    match m (env st) with
    | Ok a s => Ok a {| this := this st; env := s |}
    | Throw e s => Throw e {| this := this st; env := s |}
    | Undef => Undef
    end.

Definition get_this : M WState World := fun st => Ok (this st) st.

(** [Layer::MakeLayer(physics_world_, &cfr_, dir, node)]: the builder
    makes the layer, on the heap at a fresh address, and may register it
    with the collision filter registry. *)
Definition call_MakeLayer (dir : string) (node : Node) : M WState addr :=
  fun st =>
    let w := this st in
    match Layer_MakeLayer (physics_world_ w) (cfr_ w) dir node with
    | inl e => Throw e st
    | inr (obj, c) =>
        let l := fresh (dom (layer_heap (env st))) in
        Ok l {| this := set_cfr c w;
                env := log (EvMakeLayer l dir node)
                         (set_layer_heap (<[l := obj]> (layer_heap (env st)))
                            (env st)) |}
    end.

(** [Model::MakeModel(physics_world_, &cfr_, path, ns, name)]. *)
Definition call_MakeModel (path ns name : string) : M WState addr :=
  fun st =>
    let w := this st in
    match Model_MakeModel (physics_world_ w) (cfr_ w) path ns name with
    | inl e => Throw e st
    | inr (obj, c) =>
        let m := fresh (dom (model_heap (env st))) in
        Ok m {| this := set_cfr c w;
                env := log (EvMakeModel m path ns name)
                         (set_model_heap (<[m := obj]> (model_heap (env st)))
                            (env st)) |}
    end.

(** [m->TransformAll(pose)]. *)
Definition call_TransformAll (m : addr) (pose : Pose) : M Env unit :=
  fun s =>
    match model_heap s !! m with
    | None => Undef
    | Some obj =>
        Ok tt (log (EvTransformAll m pose)
                 (set_model_heap
                    (<[m := Model_TransformAll pose obj]> (model_heap s)) s))
    end.

(** Reading a field through [m->]. *)
Definition deref_Model (m : addr) : M Env Model :=
  fun s =>
    match model_heap s !! m with
    | None => Undef
    | Some obj => Ok obj s
    end.

(** [plugin_manager_.LoadModelPlugin(m, plugin_node)]. *)
Definition call_LoadModelPlugin (m : addr) (plugin_node : Node) : M WState unit :=
  fun st =>
    match model_heap (env st) !! m with
    | None => Undef
    | Some obj =>
        let st' := on_env (log (EvLoadModelPlugin m plugin_node)) st in
        match PM_LoadModelPlugin (plugin_manager_ (this st)) m obj plugin_node with
        | inl e => Throw e st'
        | inr pm => Ok tt (on_this (set_plugin_manager pm) st')
        end
    end.

(** [plugin_manager_.BeforePhysicsStep(timekeeper)]. *)
Definition call_BeforePhysicsStep (tk : Timekeeper) : M WState unit :=
  modify (fun st =>
    on_this (set_plugin_manager (PM_BeforePhysicsStep tk (plugin_manager_ (this st))))
      (on_env (log (EvBeforePhysicsStep tk)) st)).

(** [plugin_manager_.AfterPhysicsStep(timekeeper)]. *)
Definition call_AfterPhysicsStep (tk : Timekeeper) : M WState unit :=
  modify (fun st =>
    on_this (set_plugin_manager (PM_AfterPhysicsStep tk (plugin_manager_ (this st))))
      (on_env (log (EvAfterPhysicsStep tk)) st)).

(** [timekeeper.StepTime()]: the timekeeper is passed by reference, the
    stepped timekeeper is returned. *)
Definition call_StepTime (tk : Timekeeper) : M WState Timekeeper :=
  fun st => Ok (StepTime tk) (on_env (log (EvStepTime tk)) st).

(** [YAML::LoadFile(path)], its exception wrapped as the loaders do. *)
Definition load_yaml {T} (path : string) : M T Node :=
  match LoadFile path with
  | inl what =>
      throw (YAMLException_with ("Error loading " +:+ quoted path)
               (YAML_Exception what))
  | inr yaml => ret yaml
  end.

(** The elements a range-based [for] visits. *)
Definition node_elements (n : Node) : list Node :=
  match n with
  | Sequence l => l
  | Map kv => map snd kv
  | _ => []
  end.

(** ** The methods of [World] *)

(** [World::World()]: gravity is the zero vector; the world registers
    itself as contact listener. *)
Definition World_ctor : M Env World :=
  pw <- new_b2World ;;
  b2World_SetContactListener pw true ;;
  ret {| physics_world_ := pw; layers_ := []; models_ := [];
         cfr_ := cfr_new; plugin_manager_ := pm_new |}.

(** [World::~World()]. *)
Definition World_dtor (w : World) : M Env unit :=
  b2World_SetContactListener (physics_world_ w) false ;;
  for_range (length (layers_ w)) (fun i =>
    l <- vector_at (layers_ w) i ;;
    null_physics_body l ;;
    delete_Layer l) ;;
  for_range (length (models_ w)) (fun i =>
    m <- vector_at (models_ w) i ;;
    delete_Model m) ;;
  delete_b2World (physics_world_ w).

(** The body of the loop of [World::LoadLayers]. *)
Definition LoadLayers_entry (yaml_path : string) (layers : Node) (i : nat)
  : M WState unit :=
  w <- get_this ;;
  if IsLayersFull (cfr_ w) then
    throw (YAMLException
             ("Max number of layers reached, max is " +:+ to_string MAX_LAYERS))
  else
    layer <- call_MakeLayer (parent_path yaml_path) (node_index layers i) ;;
    modify (on_this (fun w => set_layers (layers_ w ++ [layer]) w)).

(** [World::LoadLayers(const std::string &yaml_path)]. *)
Definition LoadLayers (yaml_path : string) : M WState unit :=
  yaml <- load_yaml yaml_path ;;
  layers <- lift (node_get yaml "layers") ;;
  if negb (IsDefined layers) || negb (IsSequence layers) then
    throw (YAMLException ("Missing/invalid world param " +:+ quoted "layers"))
  else
    for_range (node_size layers) (LoadLayers_entry yaml_path layers).

(** [World::LoadModel(model_yaml_path, ns, name, pose)]. *)
Definition LoadModel (model_yaml_path ns name : string) (pose : Pose)
  : M WState unit :=
  m <- call_MakeModel model_yaml_path ns name ;;
  in_env (call_TransformAll m pose) ;;
  modify (on_this (fun w => set_models (models_ w ++ [m]) w)) ;;
  obj <- in_env (deref_Model m) ;;
  if IsDefined (plugins_node_ obj) && negb (IsSequence (plugins_node_ obj)) then
    throw (YAMLException
             ("Invalid " +:+ quoted "plugins" +:+ " in " +:+ model_name_ obj
              +:+ " model, not a list"))
  else if IsDefined (plugins_node_ obj) then
    for_each (node_elements (plugins_node_ obj)) (call_LoadModelPlugin m)
  else ret tt.

(** Lines 231 to 233 of [world.cpp]: the path of the model file, taken
    relative to the directory of the world file unless its first
    character is a slash. *)
Definition resolve_model_path {T} (yaml_path model_path : string) : M T string :=
  match front model_path with
  | None => undefined
  | Some c =>
      if negb (Ascii.eqb c "/"%char) then
        ret (path_append (parent_path yaml_path) model_path)
      else ret model_path
  end.

(** The body of the loop of [World::LoadModels]. *)
Definition LoadModels_entry (yaml_path : string) (models : Node) (i : nat)
  : M WState unit :=
  let node := node_index models i in
  name_node <- lift (node_get node "name") ;;
  name <- (if IsDefined name_node then lift (as_string name_node)
           else throw (YAMLException
                         ("Missing model name in model index="
                          +:+ to_string (Z.of_nat i)))) ;;
  ns_node <- lift (node_get node "namespace") ;;
  ns <- (if IsDefined ns_node then lift (as_string ns_node)
         else ret EmptyString) ;;
  pose_node <- lift (node_get node "pose") ;;
  pose <- (if IsDefined pose_node && IsSequence pose_node
              && (node_size pose_node =? 3)
           then
             x <- lift (as_double (node_index pose_node 0)) ;;
             y <- lift (as_double (node_index pose_node 1)) ;;
             theta <- lift (as_double (node_index pose_node 2)) ;;
             ret (x, y, theta)
           else throw (YAMLException
                         ("Missing/invalid " +:+ quoted "pose" +:+ " in "
                          +:+ name +:+ " model"))) ;;
  model_node <- lift (node_get node "model") ;;
  model_path <- (if IsDefined model_node then lift (as_string model_node)
                 else throw (YAMLException
                               ("Missing " +:+ quoted "model" +:+ " in "
                                +:+ name +:+ " model"))) ;;
  model_path <- resolve_model_path yaml_path model_path ;;
  LoadModel model_path ns name pose.

(** [World::LoadModels(const std::string &yaml_path)]. *)
Definition LoadModels (yaml_path : string) : M WState unit :=
  yaml <- load_yaml yaml_path ;;
  models <- lift (node_get yaml "models") ;;
  if IsDefined models && negb (IsSequence models) then
    throw (YAMLException
             ("Invalid world param " +:+ quoted "layers"
              +:+ ", must be a sequence"))
  else if IsDefined models then
    for_range (node_size models) (LoadModels_entry yaml_path models)
  else ret tt.

(** The two handlers of [MakeWorld]: [delete w], then the description
    error is thrown again wrapped, the plugin error as it is.  An
    exception of another class is not caught. *)
Definition MakeWorld_catch (e : Exn) (st : WState) : Outcome Env World :=
  if is_YAML_Exception e then
    (World_dtor (this st) ;; throw (YAMLException_from e)) (env st)
  else if is_PluginException e then
    (World_dtor (this st) ;; throw e) (env st)
  else Throw e (env st).

(** The [try] block of [MakeWorld] on the new world [w]. *)
Definition MakeWorld_try (yaml_path : string) (w : World) : M Env World :=
  fun s =>
    match (LoadLayers yaml_path ;; LoadModels yaml_path)
            {| this := w; env := s |} with
    | Ok _ st => Ok (this st) (env st)
    | Throw e st => MakeWorld_catch e st
    | Undef => Undef
    end.

(** [World::MakeWorld(const std::string &yaml_path)]. *)
Definition MakeWorld (yaml_path : string) : M Env World :=
  yaml <- load_yaml yaml_path ;;
  properties <- lift (node_get yaml "properties") ;;
  if IsDefined properties && IsMap properties then
    w <- World_ctor ;;
    MakeWorld_try yaml_path w
  else
    throw (YAMLException
             ("Missing/invalid world param " +:+ quoted "properties")).

End World.

(** ** Contact callbacks and debug visualisation *)

(** What the four contact callbacks call: the plugin manager takes the
    pointers Box2D hands over, as they are. *)
Class ContactHooks {X : Collaborators} := {
  b2Contact : Type;
  b2Manifold : Type;
  b2ContactImpulse : Type;
  PM_BeginContact : b2Contact → PluginManager → PluginManager;
  PM_EndContact : b2Contact → PluginManager → PluginManager;
  PM_PreSolve : b2Contact → b2Manifold → PluginManager → PluginManager;
  PM_PostSolve : b2Contact → b2ContactImpulse → PluginManager → PluginManager
}.

Section Callbacks.
Context {X : Collaborators} {H : ContactHooks}.

Definition with_plugin_manager (f : PluginManager → PluginManager) : M WState unit :=
  modify (fun st => on_this (set_plugin_manager (f (plugin_manager_ (this st)))) st).

(** [World::BeginContact(b2Contact *contact)]. *)
Definition BeginContact (contact : b2Contact) : M WState unit :=
  with_plugin_manager (PM_BeginContact contact).

(** [World::EndContact(b2Contact *contact)]. *)
Definition EndContact (contact : b2Contact) : M WState unit :=
  with_plugin_manager (PM_EndContact contact).

(** [World::PreSolve(b2Contact *contact, const b2Manifold *oldManifold)]. *)
Definition PreSolve (contact : b2Contact) (oldManifold : b2Manifold) : M WState unit :=
  with_plugin_manager (PM_PreSolve contact oldManifold).

(** [World::PostSolve(b2Contact *contact, const b2ContactImpulse *impulse)]. *)
Definition PostSolve (contact : b2Contact) (impulse : b2ContactImpulse)
  : M WState unit :=
  with_plugin_manager (PM_PostSolve contact impulse).

(** A callback of the contact listener, as Box2D raises it. *)
Inductive Contact :=
| Begin (contact : b2Contact)
| End_ (contact : b2Contact)
| Pre (contact : b2Contact) (oldManifold : b2Manifold)
| Post (contact : b2Contact) (impulse : b2ContactImpulse).

(** The method of the listener Box2D calls for it. *)
Definition World_contact (c : Contact) : M WState unit :=
  match c with
  | Begin contact => BeginContact contact
  | End_ contact => EndContact contact
  | Pre contact oldManifold => PreSolve contact oldManifold
  | Post contact impulse => PostSolve contact impulse
  end.

(** The same callback given to the plugin manager directly. *)
Definition PM_contact (c : Contact) : PluginManager → PluginManager :=
  match c with
  | Begin contact => PM_BeginContact contact
  | End_ contact => PM_EndContact contact
  | Pre contact oldManifold => PM_PreSolve contact oldManifold
  | Post contact impulse => PM_PostSolve contact impulse
  end.

End Callbacks.

(** ** Stepping the engine *)

(** What a step of Box2D does, as far as [world.cpp] sees it.  [Step]
    takes its time step as a [float32]: the [double] of the timekeeper is
    converted at the call, and [to_float32] gives the converted value
    (a [float32] is kept as the [double] of the same value).  During the
    step the engine raises the callbacks of its contact listener; which
    ones, and in which order, is decided by the engine and may depend on
    everything done so far: [Step_contacts] lists them for a step begun
    in the given state with the given arguments. *)
Class Box2D {X : Collaborators} {H : ContactHooks} := {
  to_float32 : double → double;
  Step_contacts : WState → double → Z → Z → list Contact
}.

Section Stepping.
Context {X : Collaborators} {H : ContactHooks} {B : Box2D}.

(** [pw->Step(timeStep, velocityIterations, positionIterations)]: the
    engine advances, and the callbacks it raises reach the listener
    registered with [SetContactListener], which is the world (lines 61
    and 101 to 115); with no listener they reach nobody. *)
Definition b2World_Step (pw : addr) (timeStep : double) (vi pi : Z)
  : M WState unit :=
  fun st =>
    match physics_heap (env st) !! pw with
    | None => Undef
    | Some b =>
        (modify (on_env (log (EvStep pw timeStep vi pi))) ;;
         if m_contactListener b
         then for_each (Step_contacts st timeStep vi pi) World_contact
         else ret tt) st
    end.

(** [World::Update(Timekeeper &timekeeper)]. *)
Definition Update (timekeeper : Timekeeper) : M WState Timekeeper :=
  call_BeforePhysicsStep timekeeper ;;
  w <- get_this ;;
  b2World_Step (physics_world_ w) (to_float32 (GetStepSize timekeeper)) 10 10 ;;
  timekeeper' <- call_StepTime timekeeper ;;
  call_AfterPhysicsStep timekeeper' ;;
  ret timekeeper'.

End Stepping.

Section Visualization.
Context {X : Collaborators}.

(** The calls of [DebugVisualize] on the entities. *)
Inductive VizCall :=
| VizLayer (l : addr)
| VizModel (m : addr).

(** [layer->DebugVisualize()]. *)
Definition Layer_DebugVisualize (l : addr) : M (Env * list VizCall) unit :=
  fun s =>
    match layer_heap (fst s) !! l with
    | None => Undef
    | Some _ => Ok tt (fst s, snd s ++ [VizLayer l])
    end.

(** [model->DebugVisualize()]. *)
Definition Model_DebugVisualize (m : addr) : M (Env * list VizCall) unit :=
  fun s =>
    match model_heap (fst s) !! m with
    | None => Undef
    | Some _ => Ok tt (fst s, snd s ++ [VizModel m])
    end.

(** [World::DebugVisualize(bool update_layers)]. *)
Definition DebugVisualize (update_layers : bool) (w : World)
  : M (Env * list VizCall) unit :=
  (if update_layers then for_each (layers_ w) Layer_DebugVisualize else ret tt) ;;
  for_each (models_ w) Model_DebugVisualize.

End Visualization.

(** ** A concrete set of collaborators

    Used to run the embedding on concrete descriptions: numbers are
    integers, the registry counts the layers registered with it and holds
    at most two, the layer builder wants a [name], and the model builder
    knows three model files. *)
Module Demo.

Definition demo_parse (s : string) : option Z :=
  match NilZero.int_of_string s with
  | Some i => Some (Z.of_int i)
  | None => None
  end.

Record DemoModel := {
  demo_name : string;
  demo_plugins : Node;
  demo_poses : list (Z * Z * Z)
}.

Definition demo_MakeLayer (pw : addr) (c : nat) (dir : string) (node : Node)
  : Exn + (Layer * nat) :=
  match node with
  | Map kv =>
      match assoc "name" kv with
      | Scalar s =>
          inr ({| name_ := s; body_ := {| physics_body_ := Some c |} |}, S c)
      | _ => inl (YAMLException "Missing layer name")
      end
  | _ => inl (YAMLException "Invalid layer")
  end.

Definition demo_MakeModel (pw : addr) (c : nat) (path ns name : string)
  : Exn + (DemoModel * nat) :=
  if String.eqb path "/a/b/foo.yaml" then
    inr ({| demo_name := name; demo_plugins := Undefined; demo_poses := [] |}, c)
  else if String.eqb path "/x/foo.yaml" then
    inr ({| demo_name := name; demo_plugins := Scalar "laser";
            demo_poses := [] |}, c)
  else if String.eqb path "/a/b/robot.yaml" then
    inr ({| demo_name := name;
            demo_plugins := Sequence [Scalar "laser"; Scalar "broken"];
            demo_poses := [] |}, c)
  else inl (YAMLException "Error loading model").

Definition demo_TransformAll (pose : Z * Z * Z) (m : DemoModel) : DemoModel :=
  {| demo_name := demo_name m; demo_plugins := demo_plugins m;
     demo_poses := demo_poses m ++ [pose] |}.

Definition demo_LoadModelPlugin (pm : list string) (m : addr) (obj : DemoModel)
    (node : Node) : Exn + list string :=
  match node with
  | Scalar s =>
      if String.eqb s "broken" then inl (PluginException "cannot load plugin")
      else inr (pm ++ [s])
  | _ => inl (YAMLException "Invalid plugin")
  end.

Definition entry (fields : list (string * string)) : Node :=
  Map (map (fun kv => (fst kv, Scalar (snd kv))) fields).

Definition pose_123 : Node := Sequence [Scalar "1"; Scalar "2"; Scalar "3"].

Definition model_fields (name model : string) : list (string * Node) :=
  [("name"%string, Scalar name); ("pose"%string, pose_123);
   ("model"%string, Scalar model)].

Definition model_entry (name model : string) : Node :=
  Map (model_fields name model).

Definition world (layers : list Node) (models : Node) : Node :=
  Map [("properties"%string, Map []); ("layers"%string, Sequence layers);
       ("models"%string, models)].

Definition layer_entry (name : string) : Node := entry [("name"%string, name)].

(** The files of the demonstration. *)
Definition world_yaml : Node :=
  world [layer_entry "map"; layer_entry "walls"]
    (Sequence [model_entry "r1" "foo.yaml"]).

Definition plugin_fails_yaml : Node :=
  world [layer_entry "map"]
    (Sequence [model_entry "r1" "foo.yaml"; model_entry "r2" "robot.yaml"]).

Definition plugins_not_list_yaml : Node :=
  world [layer_entry "map"] (Sequence [model_entry "r1" "/x/foo.yaml"]).

Definition three_layers_yaml : Node :=
  world [layer_entry "a"; layer_entry "b"; layer_entry "c"] Undefined.

Definition models_scalar_yaml : Node := world [] (Scalar "r1").

Definition no_layers_yaml : Node := Map [("properties"%string, Map [])].

Definition empty_model_yaml : Node :=
  world [] (Sequence [model_entry "r1" EmptyString]).

Definition no_name_fields : list (string * Node) :=
  [("pose"%string, pose_123); ("model"%string, Scalar "foo.yaml")].

Definition no_name_yaml : Node :=
  world [] (Sequence [model_entry "r1" "foo.yaml"; Map no_name_fields]).

(** A pose whose second element is no number. *)
Definition bad_pose_fields : list (string * Node) :=
  [("name"%string, Scalar "r1");
   ("pose"%string, Sequence [Scalar "1"; Scalar "north"; Scalar "3"]);
   ("model"%string, Scalar "foo.yaml")].

Definition bad_pose_yaml : Node :=
  world [layer_entry "map"] (Sequence [Map bad_pose_fields]).

Definition demo_LoadFile (path : string) : string + Node :=
  if String.eqb path "/a/b/world.yaml" then inr world_yaml
  else if String.eqb path "/a/b/plugin_fails.yaml" then inr plugin_fails_yaml
  else if String.eqb path "/a/b/plugins_not_list.yaml" then inr plugins_not_list_yaml
  else if String.eqb path "/a/b/three_layers.yaml" then inr three_layers_yaml
  else if String.eqb path "/a/b/models_scalar.yaml" then inr models_scalar_yaml
  else if String.eqb path "/a/b/no_layers.yaml" then inr no_layers_yaml
  else if String.eqb path "/a/b/empty_model.yaml" then inr empty_model_yaml
  else if String.eqb path "/a/b/no_name.yaml" then inr no_name_yaml
  else if String.eqb path "/a/b/bad_pose.yaml" then inr bad_pose_yaml
  else inl "bad file"%string.

Definition demo : Collaborators := {|
  double := Z;
  parse_double := demo_parse;
  LoadFile := demo_LoadFile;
  Timekeeper := Z * Z;
  GetStepSize := snd;
  StepTime := fun tk => (fst tk + snd tk, snd tk)%Z;
  CollisionFilterRegistry := nat;
  cfr_new := 0;
  IsLayersFull := fun c => 2 <=? c;
  MAX_LAYERS := 2;
  Layer_MakeLayer := demo_MakeLayer;
  Model := DemoModel;
  model_name_ := demo_name;
  plugins_node_ := demo_plugins;
  Model_MakeModel := demo_MakeModel;
  Model_TransformAll := demo_TransformAll;
  PluginManager := list string;
  pm_new := [];
  PM_LoadModelPlugin := demo_LoadModelPlugin;
  PM_BeforePhysicsStep := fun _ pm => pm ++ ["before"%string];
  PM_AfterPhysicsStep := fun _ pm => pm ++ ["after"%string]
|}.

(** The environment before anything is allocated. *)
Definition empty_env : @Env demo :=
  {| physics_heap := ∅; layer_heap := ∅; model_heap := ∅; trace := [] |}.

Definition outcome_state {T A} (d : T) (o : Outcome T A) : T :=
  match o with
  | Ok _ s | Throw _ s => s
  | Undef => d
  end.

(** The new world and the environment [World::World()] leaves. *)
Definition world0 : @World demo :=
  @Build_World demo 0 [] [] 0 [].

Definition env0 : @Env demo :=
  Eval vm_compute in outcome_state empty_env (World_ctor (X:=demo) empty_env).

Definition state0 : @WState demo := {| this := world0; env := env0 |}.

(** The state in which the loaders return or throw, for a world file. *)
Definition loaded (yaml_path : string) : @WState demo :=
  outcome_state state0
    ((LoadLayers (X:=demo) yaml_path ;; LoadModels yaml_path) state0).

Definition world_state : @WState demo :=
  Eval vm_compute in loaded "/a/b/world.yaml".

Definition plugin_fails_state : @WState demo :=
  Eval vm_compute in loaded "/a/b/plugin_fails.yaml".

Definition three_layers_state : @WState demo :=
  Eval vm_compute in loaded "/a/b/three_layers.yaml".




Definition pose123 : @Pose demo := (1, 2, 3)%Z.

(** The model in [/x/foo.yaml], as the builder makes it. *)
Definition x_foo : DemoModel :=
  {| demo_name := "r1"; demo_plugins := Scalar "laser"; demo_poses := [] |}.

(** A timekeeper at time [t] with step size [d]. *)
Definition timekeeper (t d : Z) : @Timekeeper demo := (t, d).

(** A plugin manager that has received the calls [l]. *)
Definition plugins (l : list string) : @PluginManager demo := l.

(** The contact callbacks of the demonstration: the plugin manager
    keeps the name of the callback. *)
Definition demo_hooks : @ContactHooks demo := {|
  b2Contact := nat;
  b2Manifold := nat;
  b2ContactImpulse := nat;
  PM_BeginContact := fun c (pm : @PluginManager demo) => pm ++ ["begin"%string];
  PM_EndContact := fun c (pm : @PluginManager demo) => pm ++ ["end"%string];
  PM_PreSolve := fun c m (pm : @PluginManager demo) => pm ++ ["pre"%string];
  PM_PostSolve := fun c i (pm : @PluginManager demo) => pm ++ ["post"%string]
|}.

(** The engine of the demonstration: an integer is its own [float32],
    and in every step contact 7 begins and ends. *)
Definition demo_box2d : @Box2D demo demo_hooks := {|
  to_float32 := fun d : @double demo => d;
  Step_contacts := fun _ _ _ _ => [@Begin demo demo_hooks 7; @End_ demo demo_hooks 7]
|}.



(** A second world made from [/a/b/world.yaml] while the first is
    alive: its engine is at 1, its layers are at 2 and 3, its model at
    1. *)
Definition second_world : @WState demo :=
  Eval vm_compute in
    match MakeWorld (X:=demo) "/a/b/world.yaml" (env world_state) with
    | Ok w s => {| this := w; env := s |}
    | _ => world_state
    end.


End Demo.

(** * Properties *)

Section Properties.
Context {X : Collaborators} {hooks : ContactHooks} {box2d : Box2D}.

(** ** The monad *)

Lemma bind_ok {T A B} (m : M T A) (k : A → M T B) s a s' :
  m s = Ok a s' → (x <- m ;; k x) s = k a s'.
Proof. unfold bind. by intros ->. Qed.

Lemma bind_throw {T A B} (m : M T A) (k : A → M T B) s e s' :
  m s = Throw e s' → (x <- m ;; k x) s = Throw e s'.
Proof. unfold bind. by intros ->. Qed.

Lemma bind_undef {T A B} (m : M T A) (k : A → M T B) s :
  m s = Undef → (x <- m ;; k x) s = Undef.
Proof. unfold bind. by intros ->. Qed.

Lemma bind_assoc_unit {T} (m : M T unit) s : (m ;; ret tt) s = m s.
Proof. unfold bind, ret. by destruct (m s) as [[] ?| |]. Qed.

Lemma bind_assoc {T A B C} (m : M T A) (k : A → M T B) (h : B → M T C) s :
  (y <- (x <- m ;; k x) ;; h y) s = (x <- m ;; y <- k x ;; h y) s.
Proof. unfold bind. by destruct (m s). Qed.

(** An index loop over a vector visits its elements in order. *)
Lemma for_from_vector {T} (pre l : list addr) (f : addr → M T unit) s :
  for_from (length pre) (length l)
    (fun i => a <- vector_at (pre ++ l) i ;; f a) s
  = for_each l f s.
Proof.
  revert pre s. induction l as [|a l IH]; intros pre s; [done|].
  assert (Hstep : (b <- vector_at (pre ++ a :: l) (length pre) ;; f b) s = f a s).
  { unfold bind, vector_at. by rewrite list_lookup_middle. }
  simpl. destruct (f a s) as [[] s'|e s'|] eqn:Hf.
  - rewrite (bind_ok _ _ s tt s') by (by rewrite Hstep).
    rewrite (bind_ok (f a) _ s tt s') by done.
    specialize (IH (pre ++ [a]) s').
    rewrite length_app, Nat.add_1_r, <- app_assoc in IH. apply IH.
  - rewrite (bind_throw _ _ s e s') by (by rewrite Hstep).
    by rewrite (bind_throw (f a) _ s e s').
  - rewrite (bind_undef _ _ s) by (by rewrite Hstep).
    by rewrite (bind_undef (f a) _ s).
Qed.

Lemma for_range_vector {T} (l : list addr) (f : addr → M T unit) s :
  for_range (length l) (fun i => a <- vector_at l i ;; f a) s = for_each l f s.
Proof. apply (for_from_vector [] l f s). Qed.

(** ** Heaps *)

(** The heap after the objects at [l] are deleted, first to last. *)
Definition delete_all {V} (l : list addr) (h : gmap addr V) : gmap addr V :=
  foldl (fun h a => delete a h) h l.

Lemma lookup_delete_all {V} (l : list addr) (h : gmap addr V) (a : addr) :
  delete_all l h !! a = if decide (a ∈ l) then None else h !! a.
Proof.
  revert h. induction l as [|b l IH]; intros h.
  - done.
  - change (delete_all (b :: l) h) with (delete_all l (delete b h)).
    rewrite IH.
    destruct (decide (a ∈ l)) as [Hin|Hout].
    + by rewrite decide_True by (by right).
    + destruct (decide (a = b)) as [->|Hne].
      * rewrite decide_True by left. apply lookup_delete_eq.
      * rewrite decide_False by (by intros [?|?]%elem_of_cons).
        by apply lookup_delete_ne.
Qed.

(** ** Teardown *)

(** A layer after [body_->physics_body_ = nullptr]. *)
Definition nulled (obj : Layer) : Layer :=
  {| name_ := name_ obj; body_ := {| physics_body_ := None |} |}.

(** What a pointer of a layer points to: a layer object of the world, or
    a body inside the physics engine. *)
Inductive Pointee :=
| LayerObject (l : addr)
| PhysicsBody (b : addr).

(** The pointer the destructor sets to null in the layer at [l] before
    it deletes the layer (line 77,
    [layers_[i]->body_->physics_body_ = nullptr]), as it was before: the
    pointer of the body of the layer to its Box2D body. *)
Definition nulled_pointer (s : Env) (l : addr) : option Pointee :=
  match layer_heap s !! l with
  | Some obj =>
      match physics_body_ (body_ obj) with
      | Some b => Some (PhysicsBody b)
      | None => None
      end
  | None => None
  end.

(** What the destructor does with the layer at [l]. *)
Definition layer_teardown (h : gmap addr Layer) (l : addr) : list Event :=
  match h !! l with
  | Some obj => [EvNullPhysicsBody l; EvDeleteLayer l (nulled obj)]
  | None => []
  end.

Lemma layer_teardown_ext (h h' : gmap addr Layer) (l : list addr) :
  (∀ a, a ∈ l → h' !! a = h !! a) →
  flat_map (layer_teardown h') l = flat_map (layer_teardown h) l.
Proof.
  induction l as [|a l IH]; intros Hl; [done|]. simpl.
  unfold layer_teardown at 1 3. rewrite Hl by left.
  f_equal. apply IH. intros b Hb. apply Hl. by right.
Qed.

Lemma destroy_layers_spec (l : list addr) (s : Env) :
  NoDup l → (∀ a, a ∈ l → is_Some (layer_heap s !! a)) →
  for_each l (fun a => null_physics_body a ;; delete_Layer a) s
  = Ok tt {| physics_heap := physics_heap s;
             layer_heap := delete_all l (layer_heap s);
             model_heap := model_heap s;
             trace := trace s ++ flat_map (layer_teardown (layer_heap s)) l |}.
Proof.
  revert s. induction l as [|a l IH]; intros s Hnd Hlive.
  - simpl. unfold ret. destruct s. simpl. by rewrite app_nil_r.
  - apply NoDup_cons in Hnd as [Ha Hnd].
    destruct (Hlive a) as [obj Hobj]; [left|].
    simpl. unfold bind at 1. unfold bind at 1.
    unfold null_physics_body at 1. rewrite Hobj.
    unfold delete_Layer at 1. simpl. rewrite lookup_insert_eq.
    rewrite IH; [|done|].
    + simpl. rewrite delete_insert_eq.
      rewrite (layer_teardown_ext (layer_heap s)).
      * assert (layer_teardown (layer_heap s) a
                = [EvNullPhysicsBody a; EvDeleteLayer a (nulled obj)]) as ->
          by (unfold layer_teardown; by rewrite Hobj).
        unfold nulled. by rewrite <- !app_assoc.
      * intros b Hb. apply lookup_delete_ne. by intros ->.
    + intros b Hb. simpl. rewrite lookup_delete_ne by (by intros ->).
      rewrite lookup_insert_ne by (by intros ->). apply Hlive. by right.
Qed.

Lemma destroy_models_spec (l : list addr) (s : Env) :
  NoDup l → (∀ a, a ∈ l → is_Some (model_heap s !! a)) →
  for_each l delete_Model s
  = Ok tt {| physics_heap := physics_heap s;
             layer_heap := layer_heap s;
             model_heap := delete_all l (model_heap s);
             trace := trace s ++ map EvDeleteModel l |}.
Proof.
  revert s. induction l as [|a l IH]; intros s Hnd Hlive.
  - simpl. unfold ret. destruct s. simpl. by rewrite app_nil_r.
  - apply NoDup_cons in Hnd as [Ha Hnd].
    destruct (Hlive a) as [obj Hobj]; [left|].
    simpl. unfold bind at 1. unfold delete_Model at 1. rewrite Hobj.
    rewrite IH; [|done|].
    + simpl. by rewrite <- !app_assoc.
    + intros b Hb. simpl. rewrite lookup_delete_ne by (by intros ->).
      apply Hlive. by right.
Qed.

(** The pointers of a world are valid: the engine, the layers and the
    models are alive, and no layer or model is held twice. *)
Record valid (w : World) (s : Env) : Prop := {
  valid_physics : is_Some (physics_heap s !! physics_world_ w);
  valid_layers_NoDup : NoDup (layers_ w);
  valid_layers : ∀ a, a ∈ layers_ w → is_Some (layer_heap s !! a);
  valid_models_NoDup : NoDup (models_ w);
  valid_models : ∀ a, a ∈ models_ w → is_Some (model_heap s !! a)
}.

(** The trace of the destructor. *)
Definition teardown_trace (w : World) (s : Env) : list Event :=
  [EvSetContactListener (physics_world_ w) false]
  ++ flat_map (layer_teardown (layer_heap s)) (layers_ w)
  ++ map EvDeleteModel (models_ w)
  ++ [EvDeletePhysicsWorld (physics_world_ w)].

(** The environment the destructor leaves. *)
Definition torn_down (w : World) (s : Env) : Env :=
  {| physics_heap := delete (physics_world_ w) (physics_heap s);
     layer_heap := delete_all (layers_ w) (layer_heap s);
     model_heap := delete_all (models_ w) (model_heap s);
     trace := trace s ++ teardown_trace w s |}.

Lemma World_dtor_spec (w : World) (s : Env) :
  valid w s → World_dtor w s = Ok tt (torn_down w s).
Proof.
  intros [[b Hb] Hnl Hl Hnm Hm]. unfold World_dtor.
  unfold bind at 1. unfold b2World_SetContactListener at 1. rewrite Hb.
  unfold bind at 1. rewrite for_range_vector, destroy_layers_spec by done.
  unfold bind at 1. rewrite for_range_vector, destroy_models_spec by done.
  unfold delete_b2World. simpl. rewrite lookup_insert_eq.
  unfold torn_down, teardown_trace, log, set_physics_heap. simpl.
  rewrite delete_insert_eq. by rewrite <- !app_assoc.
Qed.

(** ** Ownership *)

(** The heap [h] is [h0] with new objects at the addresses [l]. *)
Record extends {V} (h0 h : gmap addr V) (l : list addr) : Prop := {
  ext_NoDup : NoDup l;
  ext_new : ∀ a, a ∈ l → h0 !! a = None ∧ is_Some (h !! a);
  ext_old : ∀ a, a ∉ l → h !! a = h0 !! a
}.

Lemma extends_nil {V} (h : gmap addr V) : extends h h [].
Proof.
  split; [constructor| |done]. intros a Ha. by apply elem_of_nil in Ha.
Qed.

Lemma extends_alloc {V} (h0 h : gmap addr V) (l : list addr) (v : V) :
  extends h0 h l →
  extends h0 (<[fresh (dom h) := v]> h) (l ++ [fresh (dom h)]).
Proof.
  intros [Hnd Hnew Hold].
  assert (Hfresh : h !! fresh (dom h) = None).
  { apply not_elem_of_dom, is_fresh. }
  assert (Hout : fresh (dom h) ∉ l).
  { intros Hin. destruct (Hnew _ Hin) as [_ [x Hx]]. congruence. }
  split.
  - apply NoDup_app. split; [done|]. split; [|apply NoDup_singleton].
    intros a Ha ->%list_elem_of_singleton. done.
  - intros a [Ha| ->%list_elem_of_singleton]%elem_of_app.
    + destruct (Hnew a Ha) as [H0 [x Hx]]. split; [done|].
      exists x. rewrite lookup_insert_ne; [done|]. by intros <-.
    + split; [by rewrite <- Hold|]. rewrite lookup_insert_eq. by eexists.
  - intros a Ha. rewrite lookup_insert_ne.
    + apply Hold. intros Hin. apply Ha, elem_of_app. by left.
    + intros <-. apply Ha, elem_of_app. right. by apply list_elem_of_singleton.
Qed.

Lemma extends_update {V} (h0 h : gmap addr V) (l : list addr) (a : addr) (v : V) :
  extends h0 h l → a ∈ l → extends h0 (<[a := v]> h) l.
Proof.
  intros [Hnd Hnew Hold] Ha. split; [done| |].
  - intros b Hb. destruct (Hnew b Hb) as [H0 Hs]. split; [done|].
    destruct (decide (a = b)) as [->|Hne].
    + rewrite lookup_insert_eq. by eexists.
    + by rewrite lookup_insert_ne.
  - intros b Hb. rewrite lookup_insert_ne; [by apply Hold|]. by intros ->.
Qed.

Lemma extends_delete_all {V} (h0 h : gmap addr V) (l : list addr) :
  extends h0 h l → delete_all l h = h0.
Proof.
  intros [Hnd Hnew Hold]. apply map_eq. intros a.
  rewrite lookup_delete_all. destruct (decide (a ∈ l)) as [Hin|Hout].
  - symmetry. by apply Hnew.
  - by apply Hold.
Qed.

(** The world of [st] owns what was allocated since [s0]: its engine,
    its layers and its models, and nothing else was allocated or freed. *)
Record owns (s0 : Env) (st : WState) : Prop := {
  owns_physics :
    extends (physics_heap s0) (physics_heap (env st)) [physics_world_ (this st)];
  owns_layers :
    extends (layer_heap s0) (layer_heap (env st)) (layers_ (this st));
  owns_models :
    extends (model_heap s0) (model_heap (env st)) (models_ (this st))
}.

Lemma owns_valid (s0 : Env) (st : WState) : owns s0 st → valid (this st) (env st).
Proof.
  intros [[_ Hp _] [Hnl Hl _] [Hnm Hm _]]. split; [|done| |done|].
  - apply Hp. by apply list_elem_of_singleton.
  - intros a Ha. by apply Hl.
  - intros a Ha. by apply Hm.
Qed.

Lemma owns_torn_down (s0 : Env) (st : WState) :
  owns s0 st →
  physics_heap (torn_down (this st) (env st)) = physics_heap s0
  ∧ layer_heap (torn_down (this st) (env st)) = layer_heap s0
  ∧ model_heap (torn_down (this st) (env st)) = model_heap s0.
Proof.
  intros [Hp Hl Hm]. simpl. split; [|split].
  - by apply (extends_delete_all _ _ [physics_world_ (this st)]).
  - by apply extends_delete_all.
  - by apply extends_delete_all.
Qed.

(** What changes neither a heap nor a pointer of the world keeps the
    ownership. *)
Lemma owns_frame (s0 : Env) (st st' : WState) :
  owns s0 st →
  physics_heap (env st') = physics_heap (env st) →
  layer_heap (env st') = layer_heap (env st) →
  model_heap (env st') = model_heap (env st) →
  physics_world_ (this st') = physics_world_ (this st) →
  layers_ (this st') = layers_ (this st) →
  models_ (this st') = models_ (this st) →
  owns s0 st'.
Proof.
  intros [Hp Hl Hm] H1 H2 H3 H4 H5 H6.
  split; rewrite ?H1, ?H2, ?H3, ?H4, ?H5, ?H6; done.
Qed.

(** ** Invariants of a computation *)

(** [I] holds again when [m] returns and when it throws. *)
Definition preserves {T A} (I : T → Prop) (m : M T A) : Prop :=
  ∀ s, I s →
    match m s with
    | Ok _ s' | Throw _ s' => I s'
    | Undef => True
    end.

Lemma preserves_ret {T A} (I : T → Prop) (a : A) : preserves I (ret a).
Proof. by intros s Hs. Qed.

Lemma preserves_throw {T A} (I : T → Prop) (e : Exn) : preserves I (@throw T A e).
Proof. by intros s Hs. Qed.

Lemma preserves_undefined {T A} (I : T → Prop) : preserves I (@undefined T A).
Proof. by intros s Hs. Qed.

Lemma preserves_lift {T A} (I : T → Prop) (r : Exn + A) : preserves I (lift r).
Proof. by destruct r; intros s Hs. Qed.

Lemma preserves_bind {T A B} (I : T → Prop) (m : M T A) (k : A → M T B) :
  preserves I m → (∀ a, preserves I (k a)) → preserves I (x <- m ;; k x).
Proof.
  intros Hm Hk s Hs. specialize (Hm s Hs). unfold bind.
  destruct (m s) as [a s'| |]; [|done..]. by apply Hk.
Qed.

Lemma preserves_for_from {T} (I : T → Prop) (i n : nat) (body : nat → M T unit) :
  (∀ j, preserves I (body j)) → preserves I (for_from i n body).
Proof.
  intros Hbody. revert i. induction n as [|n IH]; intros i; simpl.
  - apply preserves_ret.
  - apply preserves_bind; [apply Hbody|]. intros _. apply IH.
Qed.

Lemma preserves_for_each {T A} (I : T → Prop) (l : list A) (body : A → M T unit) :
  (∀ x, preserves I (body x)) → preserves I (for_each l body).
Proof.
  intros Hbody. induction l as [|x l IH]; simpl.
  - apply preserves_ret.
  - apply preserves_bind; [apply Hbody|]. by intros _.
Qed.

Lemma preserves_load_yaml {T} (I : T → Prop) (path : string) :
  preserves I (load_yaml path).
Proof.
  unfold load_yaml. destruct (LoadFile path); [apply preserves_throw|apply preserves_ret].
Qed.

Lemma preserves_resolve_model_path {T} (I : T → Prop) (p q : string) :
  preserves I (resolve_model_path p q).
Proof.
  unfold resolve_model_path. destruct (front q) as [c|]; [|apply preserves_undefined].
  destruct (negb _); apply preserves_ret.
Qed.

(** ** The steps of the loaders *)

(** The state of [LoadLayers] when the layer built as [obj] has been
    pushed. *)
Definition layer_pushed (obj : Layer) (c : CollisionFilterRegistry)
    (dir : string) (node : Node) (st : WState) : WState :=
  let l := fresh (dom (layer_heap (env st))) in
  {| this := set_layers (layers_ (this st) ++ [l]) (set_cfr c (this st));
     env := {| physics_heap := physics_heap (env st);
               layer_heap := <[l := obj]> (layer_heap (env st));
               model_heap := model_heap (env st);
               trace := trace (env st) ++ [EvMakeLayer l dir node] |} |}.

Definition layers_full : Exn :=
  YAMLException ("Max number of layers reached, max is " +:+ to_string MAX_LAYERS).

Lemma LoadLayers_entry_unfold (yaml_path : string) (layers : Node) (i : nat)
    (st : WState) :
  LoadLayers_entry yaml_path layers i st =
  if IsLayersFull (cfr_ (this st)) then Throw layers_full st
  else
    match Layer_MakeLayer (physics_world_ (this st)) (cfr_ (this st))
            (parent_path yaml_path) (node_index layers i) with
    | inl e => Throw e st
    | inr (obj, c) =>
        Ok tt (layer_pushed obj c (parent_path yaml_path) (node_index layers i) st)
    end.
Proof.
  unfold LoadLayers_entry, bind, get_this.
  destruct (IsLayersFull _); [done|]. unfold call_MakeLayer.
  by destruct (Layer_MakeLayer _ _ _ _) as [e|[obj c]].
Qed.

(** [LoadModel] after [models_.push_back(m)]. *)
Definition LoadModel_plugins (m : addr) : M WState unit :=
  obj <- in_env (deref_Model m) ;;
  if IsDefined (plugins_node_ obj) && negb (IsSequence (plugins_node_ obj)) then
    throw (YAMLException
             ("Invalid " +:+ quoted "plugins" +:+ " in " +:+ model_name_ obj
              +:+ " model, not a list"))
  else if IsDefined (plugins_node_ obj) then
    for_each (node_elements (plugins_node_ obj)) (call_LoadModelPlugin m)
  else ret tt.

(** The state of [LoadModel] when the model built as [obj] has been
    transformed and pushed. *)
Definition model_pushed (obj : Model) (c : CollisionFilterRegistry)
    (path ns name : string) (pose : Pose) (st : WState) : WState :=
  let m := fresh (dom (model_heap (env st))) in
  {| this := set_models (models_ (this st) ++ [m]) (set_cfr c (this st));
     env := {| physics_heap := physics_heap (env st);
               layer_heap := layer_heap (env st);
               model_heap := <[m := Model_TransformAll pose obj]> (model_heap (env st));
               trace := trace (env st)
                        ++ [EvMakeModel m path ns name; EvTransformAll m pose] |} |}.

Lemma LoadModel_unfold (path ns name : string) (pose : Pose) (st : WState) :
  LoadModel path ns name pose st =
  match Model_MakeModel (physics_world_ (this st)) (cfr_ (this st)) path ns name with
  | inl e => Throw e st
  | inr (obj, c) =>
      LoadModel_plugins (fresh (dom (model_heap (env st))))
        (model_pushed obj c path ns name pose st)
  end.
Proof.
  unfold LoadModel. unfold bind at 1. unfold call_MakeModel.
  destruct (Model_MakeModel _ _ _ _ _) as [e|[obj c]]; [done|].
  unfold bind at 1. unfold in_env at 1, call_TransformAll. simpl.
  rewrite lookup_insert_eq. unfold bind at 1. simpl.
  unfold LoadModel_plugins, model_pushed, log, set_model_heap. simpl.
  by rewrite insert_insert_eq, <- app_assoc.
Qed.

(** ** Invariants of the loaders *)

Section LayerInvariant.
Variable I : WState → Prop.
Hypothesis I_layer_pushed :
  ∀ obj c dir node st, I st → I (layer_pushed obj c dir node st).

Lemma LoadLayers_entry_preserves (yaml_path : string) (layers : Node) (i : nat) :
  preserves I (LoadLayers_entry yaml_path layers i).
Proof.
  intros st Hst. rewrite LoadLayers_entry_unfold.
  destruct (IsLayersFull _); [done|].
  destruct (Layer_MakeLayer _ _ _ _) as [e|[obj c]]; [done|].
  by apply I_layer_pushed.
Qed.

Lemma LoadLayers_preserves (yaml_path : string) :
  preserves I (LoadLayers yaml_path).
Proof.
  unfold LoadLayers.
  apply preserves_bind; [apply preserves_load_yaml|]. intros yaml.
  apply preserves_bind; [apply preserves_lift|]. intros layers.
  destruct (_ || _); [apply preserves_throw|].
  apply preserves_for_from. intros j. apply LoadLayers_entry_preserves.
Qed.

End LayerInvariant.

Section ModelInvariant.
Variable I : WState → Prop.
Hypothesis I_model_pushed :
  ∀ obj c path ns name pose st, I st → I (model_pushed obj c path ns name pose st).
Hypothesis I_plugin_called :
  ∀ m node st, I st → I (on_env (log (EvLoadModelPlugin m node)) st).
Hypothesis I_plugin_loaded :
  ∀ pm st, I st → I (on_this (set_plugin_manager pm) st).

Lemma call_LoadModelPlugin_preserves (m : addr) (plugin_node : Node) :
  preserves I (call_LoadModelPlugin m plugin_node).
Proof.
  intros st Hst. unfold call_LoadModelPlugin.
  destruct (model_heap (env st) !! m) as [obj|]; [|done].
  destruct (PM_LoadModelPlugin _ _ _ _) as [e|pm].
  - by apply I_plugin_called.
  - by apply I_plugin_loaded, I_plugin_called.
Qed.

Lemma LoadModel_plugins_preserves (m : addr) :
  preserves I (LoadModel_plugins m).
Proof.
  unfold LoadModel_plugins. apply preserves_bind.
  - intros st Hst. unfold in_env, deref_Model.
    destruct (model_heap (env st) !! m); [|done]. by destruct st.
  - intros obj. destruct (_ && _); [apply preserves_throw|].
    destruct (IsDefined _); [|apply preserves_ret].
    apply preserves_for_each. intros n. apply call_LoadModelPlugin_preserves.
Qed.

Lemma LoadModel_preserves (path ns name : string) (pose : Pose) :
  preserves I (LoadModel path ns name pose).
Proof.
  intros st Hst. rewrite LoadModel_unfold.
  destruct (Model_MakeModel _ _ _ _ _) as [e|[obj c]]; [done|].
  by apply LoadModel_plugins_preserves, I_model_pushed.
Qed.

Lemma LoadModels_entry_preserves (yaml_path : string) (models : Node) (i : nat) :
  preserves I (LoadModels_entry yaml_path models i).
Proof.
  unfold LoadModels_entry.
  apply preserves_bind; [apply preserves_lift|]. intros name_node.
  apply preserves_bind.
  { destruct (IsDefined _); [apply preserves_lift|apply preserves_throw]. }
  intros name.
  apply preserves_bind; [apply preserves_lift|]. intros ns_node.
  apply preserves_bind.
  { destruct (IsDefined _); [apply preserves_lift|apply preserves_ret]. }
  intros ns.
  apply preserves_bind; [apply preserves_lift|]. intros pose_node.
  apply preserves_bind.
  { destruct (_ && _); [|apply preserves_throw].
    repeat (apply preserves_bind; [apply preserves_lift|]; intros ?).
    apply preserves_ret. }
  intros pose.
  apply preserves_bind; [apply preserves_lift|]. intros model_node.
  apply preserves_bind.
  { destruct (IsDefined _); [apply preserves_lift|apply preserves_throw]. }
  intros model_path.
  apply preserves_bind; [apply preserves_resolve_model_path|]. intros resolved.
  apply LoadModel_preserves.
Qed.

Lemma LoadModels_preserves (yaml_path : string) :
  preserves I (LoadModels yaml_path).
Proof.
  unfold LoadModels.
  apply preserves_bind; [apply preserves_load_yaml|]. intros yaml.
  apply preserves_bind; [apply preserves_lift|]. intros models.
  destruct (_ && _); [apply preserves_throw|].
  destruct (IsDefined _); [|apply preserves_ret].
  apply preserves_for_from. intros j. apply LoadModels_entry_preserves.
Qed.

End ModelInvariant.

(** ** The loaders keep the ownership *)

Lemma layer_pushed_owns (s0 : Env) obj c dir node (st : WState) :
  owns s0 st → owns s0 (layer_pushed obj c dir node st).
Proof.
  intros [Hp Hl Hm]. split; simpl; [done| |done]. by apply extends_alloc.
Qed.

Lemma model_pushed_owns (s0 : Env) obj c path ns name pose (st : WState) :
  owns s0 st → owns s0 (model_pushed obj c path ns name pose st).
Proof.
  intros [Hp Hl Hm]. split; simpl; [done..|].
  rewrite <- (insert_insert_eq _ _ _ obj).
  apply extends_update; [by apply extends_alloc|].
  apply elem_of_app. right. by apply list_elem_of_singleton.
Qed.

Lemma loaders_own (s0 : Env) (yaml_path : string) :
  preserves (owns s0) (LoadLayers yaml_path ;; LoadModels yaml_path).
Proof.
  apply preserves_bind.
  - apply LoadLayers_preserves. intros. by apply layer_pushed_owns.
  - intros _. apply LoadModels_preserves.
    + intros. by apply model_pushed_owns.
    + intros m node st Hst. by apply (owns_frame s0 st).
    + intros pm st Hst. by apply (owns_frame s0 st).
Qed.


(** ** Construction *)

Definition new_World (pw : addr) : World :=
  {| physics_world_ := pw; layers_ := []; models_ := [];
     cfr_ := cfr_new; plugin_manager_ := pm_new |}.

Lemma World_ctor_spec (s : Env) :
  World_ctor s =
  Ok (new_World (fresh (dom (physics_heap s))))
     {| physics_heap := <[fresh (dom (physics_heap s))
                          := {| m_contactListener := true |}]> (physics_heap s);
        layer_heap := layer_heap s;
        model_heap := model_heap s;
        trace := trace s ++ [EvNewPhysicsWorld (fresh (dom (physics_heap s)));
                             EvSetContactListener (fresh (dom (physics_heap s))) true] |}.
Proof.
  unfold World_ctor, bind, new_b2World, b2World_SetContactListener. simpl.
  rewrite lookup_insert_eq. unfold ret, new_World, log, set_physics_heap. simpl.
  by rewrite insert_insert_eq, <- app_assoc.
Qed.

Lemma World_ctor_owns (s : Env) (w : World) (s1 : Env) :
  World_ctor s = Ok w s1 → owns s {| this := w; env := s1 |}.
Proof.
  rewrite World_ctor_spec. intros [= <- <-]. split; simpl.
  - apply (extends_alloc _ _ []), extends_nil.
  - apply extends_nil.
  - apply extends_nil.
Qed.

(** ** Failure of [MakeWorld] *)

(** The exception the handlers of [MakeWorld] throw for [e]. *)
Definition rethrown (e : Exn) : Exn :=
  if is_YAML_Exception e then YAMLException_from e else e.

(** The handlers destroy the world the loaders left, whatever they had
    built. *)
Lemma MakeWorld_catch_spec (s0 : Env) (e : Exn) (st : WState) :
  owns s0 st →
  is_YAML_Exception e || is_PluginException e = true →
  MakeWorld_catch e st = Throw (rethrown e) (torn_down (this st) (env st)).
Proof.
  intros Hown He. unfold MakeWorld_catch, rethrown.
  destruct (is_YAML_Exception e); simpl in He.
  - unfold bind. by rewrite World_dtor_spec by by eapply owns_valid.
  - rewrite He. unfold bind. by rewrite World_dtor_spec by by eapply owns_valid.
Qed.

Lemma MakeWorld_unfold (yaml_path : string) (s : Env) (yaml properties : Node) :
  LoadFile yaml_path = inr yaml →
  node_get yaml "properties" = inr properties →
  IsDefined properties && IsMap properties = true →
  MakeWorld yaml_path s = (w <- World_ctor ;; MakeWorld_try yaml_path w) s.
Proof.
  intros Hfile Hget Hmap. unfold MakeWorld, load_yaml. rewrite Hfile.
  unfold bind at 1. unfold ret at 1. unfold bind at 1. rewrite Hget. simpl.
  by rewrite Hmap.
Qed.

Lemma MakeWorld_failure (yaml_path : string) (s : Env) (yaml properties : Node)
    (w : World) (s1 : Env) (e : Exn) (st : WState) :
  LoadFile yaml_path = inr yaml →
  node_get yaml "properties" = inr properties →
  IsDefined properties && IsMap properties = true →
  World_ctor s = Ok w s1 →
  (LoadLayers yaml_path ;; LoadModels yaml_path) {| this := w; env := s1 |}
    = Throw e st →
  is_YAML_Exception e || is_PluginException e = true →
  owns s st
  ∧ MakeWorld yaml_path s = Throw (rethrown e) (torn_down (this st) (env st)).
Proof.
  intros Hfile Hget Hmap Hctor Hload He.
  assert (Hown : owns s st).
  { pose proof (loaders_own s yaml_path _ (World_ctor_owns s w s1 Hctor)) as H.
    by rewrite Hload in H. }
  split; [done|].
  rewrite (MakeWorld_unfold yaml_path s yaml properties) by done.
  unfold bind at 1. rewrite Hctor. unfold MakeWorld_try. rewrite Hload.
  by apply (MakeWorld_catch_spec s).
Qed.

(** A world is returned only when both loaders have returned. *)
Lemma MakeWorld_returns_loaded (yaml_path : string) (s : Env) (w' : World) (s' : Env) :
  MakeWorld yaml_path s = Ok w' s' →
  ∃ w s1, World_ctor s = Ok w s1
    ∧ (LoadLayers yaml_path ;; LoadModels yaml_path) {| this := w; env := s1 |}
      = Ok tt {| this := w'; env := s' |}.
Proof.
  unfold MakeWorld. unfold bind at 1. destruct (load_yaml _ _) as [yaml s0| |] eqn:Hy;
    [|done..].
  assert (s0 = s) as ->.
  { unfold load_yaml in Hy. by destruct (LoadFile _); inversion Hy. }
  unfold bind at 1. destruct (node_get _ _) as [e|properties]; [done|]. simpl.
  destruct (_ && _); [|done].
  unfold bind at 1. destruct (World_ctor s) as [w s1| |]; [|done..].
  unfold MakeWorld_try.
  destruct ((LoadLayers yaml_path ;; LoadModels yaml_path) _) as [[] st|e st|] eqn:Hl.
  - intros [= <- <-]. exists w, s1. split; [done|]. by destruct st.
  - unfold MakeWorld_catch. unfold bind.
    destruct (is_YAML_Exception e).
    + by destruct (World_dtor _ _).
    + destruct (is_PluginException e); [|done]. by destruct (World_dtor _ _).
  - done.
Qed.

(** C1: when [LoadLayers] or [LoadModels] throws a description error or
    a plugin error inside [MakeWorld], the destructor runs on the world
    as far as it was built, the error is thrown again to the caller (the
    description error wrapped in a [YAMLException], the plugin error as
    it is) and no world is returned; the engine, the layers and the
    models allocated by the call are gone: the three heaps are what they
    were before the call. *)
Theorem MakeWorld_failure_destroys_world
    (yaml_path : string) (s : Env) (yaml properties : Node)
    (w : World) (s1 : Env) (e : Exn) (st : WState) :
  LoadFile yaml_path = inr yaml →
  node_get yaml "properties" = inr properties →
  IsDefined properties && IsMap properties = true →
  World_ctor s = Ok w s1 →
  (LoadLayers yaml_path ;; LoadModels yaml_path) {| this := w; env := s1 |}
    = Throw e st →
  is_YAML_Exception e || is_PluginException e = true →
  World_dtor (this st) (env st) = Ok tt (torn_down (this st) (env st))
  ∧ MakeWorld yaml_path s
    = Throw (if is_YAML_Exception e then YAMLException_from e else e)
            (torn_down (this st) (env st))
  ∧ (∀ w' s', MakeWorld yaml_path s ≠ Ok w' s')
  ∧ physics_heap (torn_down (this st) (env st)) = physics_heap s
  ∧ layer_heap (torn_down (this st) (env st)) = layer_heap s
  ∧ model_heap (torn_down (this st) (env st)) = model_heap s.
Proof.
  intros Hfile Hget Hmap Hctor Hload He.
  destruct (MakeWorld_failure _ _ _ _ _ _ _ _ Hfile Hget Hmap Hctor Hload He)
    as [Hown Hthrow].
  split; [by apply World_dtor_spec, (owns_valid s)|].
  split; [done|]. split; [by rewrite Hthrow|]. by apply owns_torn_down.
Qed.

(** ** Teardown order *)

(** C2: the destructor of a world whose pointers are valid returns, and
    what it does is, in this order: the contact listener of the engine
    is set to null; then, layer by layer in the order of [layers_], the
    physics body pointer of the body of the layer is set to null and
    right after it the layer is deleted, its body pointer being null at
    that point, so that the destructor of the layer has no engine body to
    remove; then each model is deleted in the order of [models_]; the
    engine is deleted last.  No layer, model or engine of the world is
    left on the heap. *)
Theorem World_dtor_order (w : World) (s : Env) :
  valid w s →
  ∃ s', World_dtor w s = Ok tt s'
  ∧ trace s' =
      trace s
      ++ [EvSetContactListener (physics_world_ w) false]
      ++ flat_map (layer_teardown (layer_heap s)) (layers_ w)
      ++ map EvDeleteModel (models_ w)
      ++ [EvDeletePhysicsWorld (physics_world_ w)]
  ∧ (∀ l, l ∈ layers_ w →
       ∃ obj, layer_heap s !! l = Some obj
         ∧ layer_teardown (layer_heap s) l =
             [EvNullPhysicsBody l;
              EvDeleteLayer l {| name_ := name_ obj;
                                 body_ := {| physics_body_ := None |} |}])
  ∧ physics_heap s' !! physics_world_ w = None
  ∧ (∀ l, l ∈ layers_ w → layer_heap s' !! l = None)
  ∧ (∀ m, m ∈ models_ w → model_heap s' !! m = None).
Proof.
  intros Hv. exists (torn_down w s).
  split; [by apply World_dtor_spec|]. split; [done|].
  destruct Hv as [_ _ Hl _ _]. split; [|split; [|split]].
  - intros l Hin. destruct (Hl l Hin) as [obj Hobj]. exists obj.
    split; [done|]. unfold layer_teardown. by rewrite Hobj.
  - simpl. apply lookup_delete_eq.
  - intros l Hin. simpl. rewrite lookup_delete_all. by rewrite decide_True.
  - intros m Hin. simpl. rewrite lookup_delete_all. by rewrite decide_True.
Qed.

(** ** The step loop *)

Definition is_EvStep (ev : Event) : bool :=
  match ev with EvStep _ _ _ _ => true | _ => false end.

(** The number of physics steps in a trace. *)
Definition count_steps (tr : list Event) : nat :=
  length (List.filter is_EvStep tr).

(** The callbacks of a contact listener reach the plugin manager one
    after the other. *)
Definition forwarded (cs : list Contact) (pm : PluginManager) : PluginManager :=
  foldl (fun pm c => PM_contact c pm) pm cs.

Lemma Step_callbacks (cs : list Contact) (st : WState) :
  for_each cs World_contact st
  = Ok tt (on_this (set_plugin_manager (forwarded cs (plugin_manager_ (this st)))) st).
Proof.
  revert st. induction cs as [|c cs IH]; intros st.
  - by destruct st as [[] ?].
  - set (st1 := on_this (set_plugin_manager (PM_contact c (plugin_manager_ (this st)))) st).
    assert (Hstep : World_contact c st = Ok tt st1) by (by destruct c).
    simpl. rewrite (bind_ok _ _ _ _ _ Hstep). by rewrite IH.
Qed.

(** The state in which [Update] calls [Step]: the pre-step hook has run. *)
Definition before_step (timekeeper : Timekeeper) (st : WState) : WState :=
  on_this (set_plugin_manager
             (PM_BeforePhysicsStep timekeeper (plugin_manager_ (this st))))
    (on_env (log (EvBeforePhysicsStep timekeeper)) st).

(** The callbacks the engine raises on the world during the step of
    [Update]. *)
Definition Update_contacts (timekeeper : Timekeeper) (st : WState) : list Contact :=
  match physics_heap (env st) !! physics_world_ (this st) with
  | Some b =>
      if m_contactListener b
      then Step_contacts (before_step timekeeper st)
             (to_float32 (GetStepSize timekeeper)) 10 10
      else []
  | None => []
  end.

(** The state [Update] leaves. *)
Definition updated (timekeeper : Timekeeper) (st : WState) : WState :=
  {| this := set_plugin_manager
               (PM_AfterPhysicsStep (StepTime timekeeper)
                  (forwarded (Update_contacts timekeeper st)
                     (PM_BeforePhysicsStep timekeeper (plugin_manager_ (this st)))))
               (this st);
     env := {| physics_heap := physics_heap (env st);
               layer_heap := layer_heap (env st);
               model_heap := model_heap (env st);
               trace := trace (env st)
                        ++ [EvBeforePhysicsStep timekeeper;
                            EvStep (physics_world_ (this st))
                              (to_float32 (GetStepSize timekeeper)) 10 10;
                            EvStepTime timekeeper;
                            EvAfterPhysicsStep (StepTime timekeeper)] |} |}.

Lemma Update_spec (timekeeper : Timekeeper) (st : WState) :
  is_Some (physics_heap (env st) !! physics_world_ (this st)) →
  Update timekeeper st = Ok (StepTime timekeeper) (updated timekeeper st).
Proof.
  intros [b Hb]. unfold Update, updated, Update_contacts. rewrite Hb.
  unfold bind at 1. unfold call_BeforePhysicsStep, modify. fold (before_step timekeeper st).
  unfold bind at 1. unfold get_this. unfold bind at 1. unfold b2World_Step.
  change (physics_heap (env (before_step timekeeper st))) with (physics_heap (env st)).
  change (physics_world_ (this (before_step timekeeper st)))
    with (physics_world_ (this st)).
  rewrite Hb. unfold bind at 1. unfold modify.
  destruct (m_contactListener b).
  - rewrite Step_callbacks. unfold bind, call_StepTime, call_AfterPhysicsStep, modify, ret.
    unfold before_step, on_this, on_env, log, set_plugin_manager. simpl.
    by rewrite <- !app_assoc.
  - unfold ret at 1. unfold bind, call_StepTime, call_AfterPhysicsStep, modify, ret.
    unfold before_step, on_this, on_env, log, set_plugin_manager. simpl.
    by rewrite <- !app_assoc.
Qed.

(** C3: [Update] on a world whose engine is alive returns and does, in
    this order: the pre-step hook of the plugin manager, on the
    timekeeper as it was passed; one step of the engine with the step
    size of that timekeeper, converted to [float32], and 10 velocity and
    10 position iterations; the step of the timekeeper; the post-step
    hook, on the stepped timekeeper.  The trace holds exactly one more
    physics step.  The plugin manager has received the pre-step hook,
    then the contact callbacks the engine raised during the step, then
    the post-step hook. *)
Theorem Update_order (timekeeper : Timekeeper) (st : WState) :
  is_Some (physics_heap (env st) !! physics_world_ (this st)) →
  ∃ st', Update timekeeper st = Ok (StepTime timekeeper) st'
  ∧ trace (env st') =
      trace (env st)
      ++ [EvBeforePhysicsStep timekeeper;
          EvStep (physics_world_ (this st))
            (to_float32 (GetStepSize timekeeper)) 10 10;
          EvStepTime timekeeper;
          EvAfterPhysicsStep (StepTime timekeeper)]
  ∧ count_steps (trace (env st')) = S (count_steps (trace (env st)))
  ∧ plugin_manager_ (this st') =
      PM_AfterPhysicsStep (StepTime timekeeper)
        (forwarded (Update_contacts timekeeper st)
           (PM_BeforePhysicsStep timekeeper (plugin_manager_ (this st)))).
Proof.
  intros Hlive. exists (updated timekeeper st).
  split; [by apply Update_spec|]. split; [done|]. split; [|done].
  unfold count_steps. simpl. rewrite !List.filter_app, !length_app. simpl. lia.
Qed.

(** ** Loops over the entries of a sequence *)

Lemma for_each_app {T A} (l1 l2 : list A) (body : A → M T unit) s :
  for_each (l1 ++ l2) body s = (for_each l1 body ;; for_each l2 body) s.
Proof.
  revert s. induction l1 as [|x l1 IH]; intros s; [done|].
  simpl. rewrite bind_assoc. destruct (body x s) as [[] s'|e s'|] eqn:Hb.
  - rewrite !(bind_ok _ _ _ _ _ Hb). apply IH.
  - by rewrite !(bind_throw _ _ _ _ _ Hb).
  - by rewrite !(bind_undef _ _ _ Hb).
Qed.

Lemma for_from_app {T} (i n k : nat) (body : nat → M T unit) s :
  for_from i (n + k) body s = (for_from i n body ;; for_from (i + n) k body) s.
Proof.
  revert i s. induction n as [|n IH]; intros i s; simpl.
  - by rewrite Nat.add_0_r.
  - rewrite bind_assoc. destruct (body i s) as [[] s'|e s'|] eqn:Hb.
    + rewrite !(bind_ok _ _ _ _ _ Hb). rewrite IH. by rewrite Nat.add_succ_r.
    + by rewrite !(bind_throw _ _ _ _ _ Hb).
    + by rewrite !(bind_undef _ _ _ Hb).
Qed.



(** ** Layer loading *)




(** The layer builder run on the entries [es] one after the other for
    the engine [pw], each on the registry the one before has left: the
    layers it makes and the registry after the last, or the exception of
    the first entry it refuses. *)
Fixpoint build_layers (pw : addr) (dir : string) (c : CollisionFilterRegistry)
    (es : list Node) : Exn + (list Layer * CollisionFilterRegistry) :=
  match es with
  | [] => inr ([], c)
  | node :: es =>
      match Layer_MakeLayer pw c dir node with
      | inl e => inl e
      | inr (obj, c1) =>
          match build_layers pw dir c1 es with
          | inl e => inl e
          | inr (objs, c') => inr (obj :: objs, c')
          end
      end
  end.


Lemma build_layers_app (pw : addr) (dir : string) (c : CollisionFilterRegistry)
    (es1 es2 : list Node) :
  build_layers pw dir c (es1 ++ es2) =
  match build_layers pw dir c es1 with
  | inl e => inl e
  | inr (objs1, c1) =>
      match build_layers pw dir c1 es2 with
      | inl e => inl e
      | inr (objs2, c') => inr (objs1 ++ objs2, c')
      end
  end.
Proof.
  revert c. induction es1 as [|node es1 IH]; intros c; simpl.
  - by destruct (build_layers pw dir c es2) as [|[]].
  - destruct (Layer_MakeLayer pw c dir node) as [|[obj c1]]; [done|].
    rewrite IH. destruct (build_layers pw dir c1 es1) as [|[objs1 c2]]; [done|].
    by destruct (build_layers pw dir c2 es2) as [|[]].
Qed.

Section Registry.
(** The registry holds a number of layers; it is full when that number
    has reached [MAX_LAYERS], and the layer builder registers the layer
    it builds. *)
Variable registered : CollisionFilterRegistry → nat.
Hypothesis IsLayersFull_spec :
  ∀ c, IsLayersFull c = (MAX_LAYERS <=? Z.of_nat (registered c))%Z.
Hypothesis MakeLayer_registers :
  ∀ pw c dir node obj c',
    Layer_MakeLayer pw c dir node = inr (obj, c') → registered c' = S (registered c).





End Registry.

(** ** Model loading *)

Lemma LoadModels_sequence (yaml_path : string) (yaml : Node) (entries : list Node)
    (st : WState) :
  LoadFile yaml_path = inr yaml →
  node_get yaml "models" = inr (Sequence entries) →
  LoadModels yaml_path st
  = for_range (length entries) (LoadModels_entry yaml_path (Sequence entries)) st.
Proof.
  intros Hfile Hget. unfold LoadModels, load_yaml. rewrite Hfile.
  unfold bind at 1. unfold ret at 1. unfold bind at 1. by rewrite Hget.
Qed.

(** When the entries before the [i]-th are loaded, the [i]-th is next. *)
Lemma LoadModels_at (yaml_path : string) (yaml : Node) (entries : list Node)
    (i : nat) (st0 st : WState) :
  LoadFile yaml_path = inr yaml →
  node_get yaml "models" = inr (Sequence entries) →
  i < length entries →
  for_range i (LoadModels_entry yaml_path (Sequence entries)) st0 = Ok tt st →
  LoadModels yaml_path st0
  = (LoadModels_entry yaml_path (Sequence entries) i ;;
     for_from (S i) (length entries - S i)
       (LoadModels_entry yaml_path (Sequence entries))) st.
Proof.
  intros Hfile Hget Hi Hrun. rewrite (LoadModels_sequence _ _ _ _ Hfile Hget).
  unfold for_range in *.
  replace (length entries) with (i + S (length entries - S i)) at 1 by lia.
  rewrite for_from_app. by rewrite (bind_ok _ _ _ _ _ Hrun).
Qed.

(** The [pose] node is a sequence of three numbers. *)
Definition valid_pose (p : Node) (pose : Pose) : Prop :=
  ∃ a b c x y theta,
    p = Sequence [a; b; c]
    ∧ as_double a = inr x ∧ as_double b = inr y ∧ as_double c = inr theta
    ∧ pose = (x, y, theta).

(** The [namespace] of an entry: missing, or a scalar. *)
Definition namespace_is (kv : list (string * Node)) (ns : string) : Prop :=
  (assoc "namespace" kv = Undefined ∧ ns = EmptyString)
  ∨ assoc "namespace" kv = Scalar ns.


Definition invalid_pose (name : string) : Exn :=
  YAMLException ("Missing/invalid " +:+ quoted "pose" +:+ " in " +:+ name +:+ " model").

Definition missing_model (name : string) : Exn :=
  YAMLException ("Missing " +:+ quoted "model" +:+ " in " +:+ name +:+ " model").

Section Entry.
Variables (yaml_path : string) (models : Node) (i : nat).
Variable kv : list (string * Node).
Hypothesis Hnode : node_index models i = Map kv.


Variables name ns : string.
Hypothesis Hname : assoc "name" kv = Scalar name.
Hypothesis Hns : namespace_is kv ns.

(** The entry after [name] and [namespace] are read. *)
Lemma entry_named (st : WState) :
  LoadModels_entry yaml_path models i st =
  (pose <- (if IsDefined (assoc "pose" kv) && IsSequence (assoc "pose" kv)
               && (node_size (assoc "pose" kv) =? 3)
            then
              x <- lift (as_double (node_index (assoc "pose" kv) 0)) ;;
              y <- lift (as_double (node_index (assoc "pose" kv) 1)) ;;
              theta <- lift (as_double (node_index (assoc "pose" kv) 2)) ;;
              ret (x, y, theta)
            else throw (invalid_pose name)) ;;
   model_path <- (if IsDefined (assoc "model" kv)
                  then lift (as_string (assoc "model" kv))
                  else throw (missing_model name)) ;;
   model_path <- resolve_model_path yaml_path model_path ;;
   LoadModel model_path ns name pose) st.
Proof.
  unfold LoadModels_entry. rewrite Hnode. simpl.
  unfold bind at 1. simpl. unfold bind at 1. rewrite Hname. simpl.
  unfold bind at 1. simpl. unfold bind at 1.
  destruct Hns as [[-> ->]| ->]; simpl.
  - unfold bind at 1. unfold ret at 1. done.
  - unfold bind at 1. unfold ret at 1. done.
Qed.



Variable pose : Pose.
Hypothesis Hpose : valid_pose (assoc "pose" kv) pose.

(** The entry after [pose] is read. *)
Lemma entry_posed (st : WState) :
  LoadModels_entry yaml_path models i st =
  (model_path <- (if IsDefined (assoc "model" kv)
                  then lift (as_string (assoc "model" kv))
                  else throw (missing_model name)) ;;
   model_path <- resolve_model_path yaml_path model_path ;;
   LoadModel model_path ns name pose) st.
Proof.
  rewrite entry_named.
  destruct Hpose as (a & b & c & x & y & t & -> & Ha & Hb & Hc & ->). simpl.
  unfold bind at 1. unfold bind at 1. rewrite Ha. simpl.
  unfold bind at 1. rewrite Hb. simpl.
  unfold bind at 1. rewrite Hc. simpl. done.
Qed.


(** The entry with all its fields: the model file is resolved and the
    model loaded. *)
Lemma entry_resolved (model_path : string) (st : WState) :
  assoc "model" kv = Scalar model_path →
  LoadModels_entry yaml_path models i st =
  (resolved <- resolve_model_path yaml_path model_path ;;
   LoadModel resolved ns name pose) st.
Proof.
  intros Hmodel. rewrite entry_posed. unfold bind at 1. by rewrite Hmodel.
Qed.

End Entry.

Lemma resolve_model_path_nonempty {T} (yaml_path : string) (c : ascii)
    (rest : string) (s : T) :
  resolve_model_path yaml_path (String c rest) s =
  Ok (if Ascii.eqb c "/"%char then String c rest
      else path_append (parent_path yaml_path) (String c rest)) s.
Proof. unfold resolve_model_path. simpl. by destruct (Ascii.eqb c "/"). Qed.


(** C7: the path of a model file whose first character is not a slash
    is the directory of the world file followed by it, and a path that
    starts with a slash is taken as it is; with the world at
    [/a/b/world.yaml], [foo.yaml] gives [/a/b/foo.yaml] and [/x/foo.yaml]
    stays [/x/foo.yaml]; this is the path [LoadModels] loads the model
    of an entry from. *)
Theorem model_path_resolution :
  (∀ T yaml_path c rest (s : T),
     c ≠ "/"%char →
     resolve_model_path yaml_path (String c rest) s
     = Ok (path_append (parent_path yaml_path) (String c rest)) s)
  ∧ (∀ T yaml_path rest (s : T),
       resolve_model_path yaml_path (String "/" rest) s = Ok (String "/" rest) s)
  ∧ (∀ T (s : T),
       resolve_model_path "/a/b/world.yaml" "foo.yaml" s = Ok "/a/b/foo.yaml"%string s
       ∧ resolve_model_path "/a/b/world.yaml" "/x/foo.yaml" s
         = Ok "/x/foo.yaml"%string s)
  ∧ (∀ yaml_path models i kv name ns pose model_path resolved (st : WState),
       node_index models i = Map kv →
       assoc "name" kv = Scalar name →
       namespace_is kv ns →
       valid_pose (assoc "pose" kv) pose →
       assoc "model" kv = Scalar model_path →
       resolve_model_path yaml_path model_path st = Ok resolved st →
       LoadModels_entry yaml_path models i st = LoadModel resolved ns name pose st).
Proof.
  split; [|split; [|split]].
  - intros T yaml_path c rest s Hc. rewrite resolve_model_path_nonempty.
    by rewrite (proj2 (Ascii.eqb_neq _ _) Hc).
  - intros. by rewrite resolve_model_path_nonempty.
  - done.
  - intros yaml_path models i kv name ns pose model_path resolved st
      Hnode Hname Hns Hpose Hmodel Hres.
    rewrite (entry_resolved yaml_path _ _ kv Hnode name ns Hname Hns pose Hpose model_path)
      by done.
    by rewrite (bind_ok _ _ _ _ _ Hres).
Qed.

(** What [LoadModels] does with a [models] node that is not a sequence,
    and without a [models] node. *)
Lemma LoadModels_not_sequence (yaml_path : string) (yaml models : Node) (st : WState) :
  LoadFile yaml_path = inr yaml →
  node_get yaml "models" = inr models →
  IsSequence models = false →
  LoadModels yaml_path st =
  if IsDefined models then
    Throw (YAMLException ("Invalid world param " +:+ quoted "layers"
                          +:+ ", must be a sequence")) st
  else Ok tt st.
Proof.
  intros Hfile Hget Hseq. unfold LoadModels, load_yaml. rewrite Hfile.
  unfold bind at 1. unfold ret at 1. unfold bind at 1. rewrite Hget. simpl.
  rewrite Hseq. by destruct (IsDefined models).
Qed.

(** ** Plugins of a model *)

Definition is_plugin_event (ev : Event) : bool :=
  match ev with EvLoadModelPlugin _ _ => true | _ => false end.

(** From [st1] on, nothing but calls of [LoadModelPlugin] happened:
    the heaps and the pointers of the world are the same. *)
Record plugins_only (st1 st' : WState) : Prop := {
  po_physics_world : physics_world_ (this st') = physics_world_ (this st1);
  po_layers : layers_ (this st') = layers_ (this st1);
  po_models : models_ (this st') = models_ (this st1);
  po_physics_heap : physics_heap (env st') = physics_heap (env st1);
  po_layer_heap : layer_heap (env st') = layer_heap (env st1);
  po_model_heap : model_heap (env st') = model_heap (env st1);
  po_trace : ∃ evs, trace (env st') = trace (env st1) ++ evs
                    ∧ Forall (fun ev => is_plugin_event ev = true) evs
}.

Lemma LoadModel_plugins_only (m : addr) (st1 : WState) :
  preserves (plugins_only st1) (LoadModel_plugins m).
Proof.
  apply LoadModel_plugins_preserves.
  - intros m' node st [H1 H2 H3 H4 H5 H6 (evs & Htr & Hevs)]. split; try done.
    exists (evs ++ [EvLoadModelPlugin m' node]). simpl. rewrite Htr.
    split; [by rewrite <- app_assoc|]. apply Forall_app. split; [done|].
    by constructor.
  - by intros pm st [H1 H2 H3 H4 H5 H6 H7].
Qed.

Lemma LoadModel_plugins_owns (s0 : Env) (m : addr) :
  preserves (owns s0) (LoadModel_plugins m).
Proof.
  apply LoadModel_plugins_preserves.
  - intros m' node st Hst. by apply (owns_frame s0 st).
  - intros pm st Hst. by apply (owns_frame s0 st).
Qed.

Lemma plugins_only_refl (st : WState) : plugins_only st st.
Proof.
  split; try done. exists []. split; [by rewrite app_nil_r|constructor].
Qed.

(** C9: in [LoadModel], once the builder has made the model, the model
    is transformed by the pose, once, and pushed to [models_], and
    anything about plugins runs after that: these are the two events
    that follow the call of the builder, and whatever [LoadModel] throws
    from there on (the description error of a [plugins] node that is not
    a sequence is one such case, a failing [LoadModelPlugin] the other),
    the model is in [models_] and on the heap as transformed, only calls
    of [LoadModelPlugin] were added to the trace, and the destructor of
    the world deletes it: the model heap is again what it was before the
    world was built. *)
Theorem LoadModel_pushes_before_plugins (s0 : Env) (path ns name : string)
    (pose : Pose) (st : WState) (obj : Model) (c : CollisionFilterRegistry) :
  owns s0 st →
  Model_MakeModel (physics_world_ (this st)) (cfr_ (this st)) path ns name
    = inr (obj, c) →
  let m := fresh (dom (model_heap (env st))) in
  let st1 := model_pushed obj c path ns name pose st in
  LoadModel path ns name pose st = LoadModel_plugins m st1
  ∧ models_ (this st1) = models_ (this st) ++ [m]
  ∧ model_heap (env st1) !! m = Some (Model_TransformAll pose obj)
  ∧ trace (env st1) =
      trace (env st) ++ [EvMakeModel m path ns name; EvTransformAll m pose]
  ∧ (IsDefined (plugins_node_ (Model_TransformAll pose obj))
       && negb (IsSequence (plugins_node_ (Model_TransformAll pose obj))) = true →
     LoadModel path ns name pose st
     = Throw (YAMLException
                ("Invalid " +:+ quoted "plugins" +:+ " in "
                 +:+ model_name_ (Model_TransformAll pose obj)
                 +:+ " model, not a list")) st1)
  ∧ (∀ e st', LoadModel path ns name pose st = Throw e st' →
       models_ (this st') = models_ (this st) ++ [m]
       ∧ model_heap (env st') !! m = Some (Model_TransformAll pose obj)
       ∧ (∃ evs, trace (env st') = trace (env st1) ++ evs
                 ∧ Forall (fun ev => is_plugin_event ev = true) evs)
       ∧ World_dtor (this st') (env st') = Ok tt (torn_down (this st') (env st'))
       ∧ EvDeleteModel m ∈ teardown_trace (this st') (env st')
       ∧ model_heap (torn_down (this st') (env st')) !! m = None
       ∧ model_heap (torn_down (this st') (env st')) = model_heap s0).
Proof.
  intros Hown Hmake m st1.
  assert (Hunfold : LoadModel path ns name pose st = LoadModel_plugins m st1).
  { rewrite LoadModel_unfold. by rewrite Hmake. }
  assert (Hm : model_heap (env st1) !! m = Some (Model_TransformAll pose obj)).
  { simpl. apply lookup_insert_eq. }
  split; [done|]. split; [done|]. split; [done|]. split; [done|]. split.
  - intros Hbad. rewrite Hunfold. unfold LoadModel_plugins.
    unfold bind, in_env, deref_Model. rewrite Hm. simpl.
    fold m. by rewrite Hbad.
  - intros e st' Hthrow. rewrite Hunfold in Hthrow.
    pose proof (LoadModel_plugins_only m st1 st1 (plugins_only_refl st1)) as Hpo.
    pose proof (LoadModel_plugins_owns s0 m st1
                  (model_pushed_owns s0 obj c path ns name pose st Hown)) as Hpres.
    rewrite Hthrow in Hpo, Hpres.
    destruct Hpo as [H1 H2 H3 H4 H5 H6 H7].
    assert (Hin : m ∈ models_ (this st')).
    { rewrite H3. simpl. apply elem_of_app. right. by apply list_elem_of_singleton. }
    split; [by rewrite H3|]. split; [by rewrite H6|]. split; [done|].
    split; [by apply World_dtor_spec, (owns_valid s0)|]. split.
    + unfold teardown_trace. apply elem_of_app. right. apply elem_of_app. right.
      apply elem_of_app. left. apply list_elem_of_fmap. by exists m.
    + split.
      * simpl. rewrite lookup_delete_all. by rewrite decide_True.
      * by apply owns_torn_down.
Qed.

(** C10: the path of the model file is left alone or not by its first
    character alone, whatever follows it: a slash keeps the path, any
    other character puts the directory of the world file in front; on
    the empty string the first character is read out of bounds, so the
    step is defined exactly when the string is not empty, and an entry
    whose [model] is the empty string makes [LoadModels] undefined. *)
Theorem model_path_front_precondition :
  (∀ T yaml_path (s : T), resolve_model_path yaml_path EmptyString s = Undef)
  ∧ (∀ T yaml_path model_path (s : T),
       resolve_model_path yaml_path model_path s ≠ Undef ↔ model_path ≠ EmptyString)
  ∧ (∀ T yaml_path c rest (s : T),
       resolve_model_path yaml_path (String c rest) s
       = Ok (if Ascii.eqb c "/"%char then String c rest
             else path_append (parent_path yaml_path) (String c rest)) s)
  ∧ (∀ yaml_path models i kv name ns pose (st : WState),
       node_index models i = Map kv →
       assoc "name" kv = Scalar name →
       namespace_is kv ns →
       valid_pose (assoc "pose" kv) pose →
       assoc "model" kv = Scalar EmptyString →
       LoadModels_entry yaml_path models i st = Undef).
Proof.
  split; [done|]. split; [|split].
  - intros T yaml_path [|c rest] s; simpl.
    + by split.
    + rewrite resolve_model_path_nonempty. by split.
  - intros. apply resolve_model_path_nonempty.
  - intros yaml_path models i kv name ns pose st Hnode Hname Hns Hpose Hmodel.
    by rewrite (entry_resolved yaml_path _ _ kv Hnode name ns Hname Hns pose Hpose
                  EmptyString).
Qed.

(** * Further properties *)

(** ** What the loaders leave alone *)

(** The plugin manager is the only thing the contact callbacks and the
    plugin loads change; the engine is only handed to the builders. *)
Lemma loaders_engine (P : gmap addr b2World) (pw : addr) (yaml_path : string) :
  preserves (fun st => physics_heap (env st) = P ∧ physics_world_ (this st) = pw)
    (LoadLayers yaml_path ;; LoadModels yaml_path).
Proof.
  apply preserves_bind.
  - by apply LoadLayers_preserves.
  - intros _. by apply LoadModels_preserves.
Qed.



(** X1: whether it returns or throws, [LoadLayers] leaves [models_],
    the model objects and the plugin manager as they were, and
    [LoadModels] leaves [layers_] and the layer objects as they were;
    neither changes the engine the world points to. *)
Theorem loaders_frame (yaml_path : string) (st : WState) :
  match LoadLayers yaml_path st with
  | Ok _ st' | Throw _ st' =>
      models_ (this st') = models_ (this st)
      ∧ model_heap (env st') = model_heap (env st)
      ∧ physics_world_ (this st') = physics_world_ (this st)
      ∧ plugin_manager_ (this st') = plugin_manager_ (this st)
  | Undef => True
  end
  ∧ match LoadModels yaml_path st with
    | Ok _ st' | Throw _ st' =>
        layers_ (this st') = layers_ (this st)
        ∧ layer_heap (env st') = layer_heap (env st)
        ∧ physics_world_ (this st') = physics_world_ (this st)
    | Undef => True
    end.
Proof.
  split.
  - apply (LoadLayers_preserves
             (fun st' => models_ (this st') = models_ (this st)
                         ∧ model_heap (env st') = model_heap (env st)
                         ∧ physics_world_ (this st') = physics_world_ (this st)
                         ∧ plugin_manager_ (this st') = plugin_manager_ (this st)));
      done.
  - apply (LoadModels_preserves
             (fun st' => layers_ (this st') = layers_ (this st)
                         ∧ layer_heap (env st') = layer_heap (env st)
                         ∧ physics_world_ (this st') = physics_world_ (this st)));
      done.
Qed.

Definition is_layer_event (ev : Event) : bool :=
  match ev with EvMakeLayer _ _ _ => true | _ => false end.

Definition is_model_event (ev : Event) : bool :=
  match ev with
  | EvMakeModel _ _ _ _ | EvTransformAll _ _ | EvLoadModelPlugin _ _ => true
  | _ => false
  end.

(** The trace grew from [base] by events that satisfy [p]. *)
Definition grew_by (p : Event → bool) (base : list Event) (st : WState) : Prop :=
  ∃ evs, trace (env st) = base ++ evs ∧ Forall (fun ev => p ev = true) evs.

Lemma grew_by_refl (p : Event → bool) (st : WState) : grew_by p (trace (env st)) st.
Proof. exists []. split; [by rewrite app_nil_r|constructor]. Qed.

Lemma grew_by_log (p : Event → bool) (base : list Event) (ev : Event) (st st' : WState) :
  grew_by p base st → p ev = true → trace (env st') = trace (env st) ++ [ev] →
  grew_by p base st'.
Proof.
  intros (evs & Htr & Hevs) Hev Hst'. exists (evs ++ [ev]).
  rewrite Hst', Htr, <- app_assoc. split; [done|].
  apply Forall_app. split; [done|]. by constructor.
Qed.

Lemma LoadLayers_grows (base : list Event) (yaml_path : string) :
  preserves (grew_by is_layer_event base) (LoadLayers yaml_path).
Proof.
  apply LoadLayers_preserves. intros obj c dir node st Hst.
  by apply (grew_by_log _ _ (EvMakeLayer (fresh (dom (layer_heap (env st)))) dir node)
              st).
Qed.

Lemma LoadModels_grows (base : list Event) (yaml_path : string) :
  preserves (grew_by is_model_event base) (LoadModels yaml_path).
Proof.
  apply LoadModels_preserves.
  - intros obj c path ns name pose st Hst.
    apply (grew_by_log _ _ (EvTransformAll (fresh (dom (model_heap (env st)))) pose)
             {| this := this st;
                env := log (EvMakeModel (fresh (dom (model_heap (env st)))) path ns name)
                         (env st) |}); [|done|].
    + by apply (grew_by_log _ _
                  (EvMakeModel (fresh (dom (model_heap (env st)))) path ns name) st).
    + simpl. by rewrite <- app_assoc.
  - intros m node st Hst. by apply (grew_by_log _ _ (EvLoadModelPlugin m node) st).
  - intros pm st (evs & Htr & Hevs). by exists evs.
Qed.

(** What the two loaders add to the trace, when [LoadModels] follows
    [LoadLayers]: calls of the layer builder, then model events. *)
Lemma loaders_trace (yaml_path : string) (st : WState) :
  match (LoadLayers yaml_path ;; LoadModels yaml_path) st with
  | Ok _ st' | Throw _ st' =>
      ∃ levs mevs,
        trace (env st') = trace (env st) ++ levs ++ mevs
        ∧ Forall (fun ev => is_layer_event ev = true) levs
        ∧ Forall (fun ev => is_model_event ev = true) mevs
  | Undef => True
  end.
Proof.
  pose proof (LoadLayers_grows (trace (env st)) yaml_path st (grew_by_refl _ st)) as Hl.
  unfold bind. destruct (LoadLayers yaml_path st) as [[] st1|e st1|]; [| |done].
  - pose proof (LoadModels_grows (trace (env st1)) yaml_path st1 (grew_by_refl _ st1))
      as Hm.
    destruct Hl as (levs & Htr1 & Hlevs).
    destruct (LoadModels yaml_path st1) as [[] st2|e st2|]; [| |done];
      destruct Hm as (mevs & Htr2 & Hmevs); exists levs, mevs;
      by rewrite Htr2, Htr1, <- app_assoc.
  - destruct Hl as (levs & Htr1 & Hlevs). exists levs, [].
    rewrite app_nil_r. by repeat split.
Qed.

(** ** Outcomes of [MakeWorld] *)

Lemma load_yaml_state {T} (path : string) (s : T) :
  match load_yaml path s with
  | Ok _ s' | Throw _ s' => s' = s
  | Undef => False
  end.
Proof. unfold load_yaml. by destruct (LoadFile path). Qed.

(** In [evs] no layer is built once a model event has happened. *)
Definition layers_first (evs : list Event) : Prop :=
  ∀ i j ev_model ev_layer,
    evs !! i = Some ev_model → is_model_event ev_model = true →
    evs !! j = Some ev_layer → is_layer_event ev_layer = true →
    j < i.

Lemma layers_first_split (pre post : list Event) :
  Forall (fun ev => is_model_event ev = false) pre →
  Forall (fun ev => is_layer_event ev = false) post →
  layers_first (pre ++ post).
Proof.
  intros Hpre Hpost i j evm evl Hi Hm Hj Hl.
  destruct (decide (i < length pre)) as [Hlt|Hge].
  { rewrite lookup_app_l in Hi by done.
    rewrite Forall_lookup in Hpre. specialize (Hpre i evm Hi). simpl in Hpre.
    congruence. }
  destruct (decide (j < length pre)) as [Hlt|Hge']; [lia|].
  rewrite lookup_app_r in Hj by lia.
  rewrite Forall_lookup in Hpost. specialize (Hpost _ evl Hj). simpl in Hpost.
  congruence.
Qed.

Lemma teardown_builds_nothing (w : World) (s : Env) :
  Forall (fun ev => is_layer_event ev = false) (teardown_trace w s).
Proof.
  unfold teardown_trace. repeat apply Forall_app_2.
  - by repeat constructor.
  - induction (layers_ w) as [|l ls IH]; [constructor|]. simpl.
    apply Forall_app_2; [|done]. unfold layer_teardown.
    destruct (layer_heap s !! l); by repeat constructor.
  - induction (models_ w) as [|m ms IH]; by constructor.
  - by repeat constructor.
Qed.

(** X2: in every run of [MakeWorld], failed or not, every layer is
    built before the first model: among the events of the call no call
    of the layer builder comes after a model event (model builder,
    transform, plugin load). *)
Theorem MakeWorld_layers_before_models (yaml_path : string) (s : Env) :
  match MakeWorld yaml_path s with
  | Ok _ s' | Throw _ s' => ∃ evs, trace s' = trace s ++ evs ∧ layers_first evs
  | Undef => True
  end.
Proof.
  assert (Hnone : ∃ evs, trace s = trace s ++ evs ∧ layers_first evs).
  { exists []. split; [by rewrite app_nil_r|]. intros i j ? ? Hi. by rewrite lookup_nil in Hi. }
  unfold MakeWorld. unfold bind at 1.
  pose proof (load_yaml_state yaml_path s) as Hy.
  destruct (load_yaml yaml_path s) as [yaml s0|e0 s0|]; [|by subst|done].
  subst s0. unfold bind at 1.
  destruct (node_get yaml "properties") as [e1|properties]; simpl; [done|].
  destruct (_ && _); [|done].
  pose proof (World_ctor_spec s) as Hctor.
  unfold bind at 1. rewrite Hctor. unfold MakeWorld_try.
  pose proof (loaders_own s yaml_path _ (World_ctor_owns s _ _ Hctor)) as Hown.
  match goal with |- context [(_ ;; _) ?st] => pose proof (loaders_trace yaml_path st) as Htr end.
  assert (Hml : ∀ evs, Forall (fun ev => is_layer_event ev = true) evs →
                       Forall (fun ev => is_model_event ev = false) evs).
  { intros evs Hevs. eapply Forall_impl; [exact Hevs|]. by intros []. }
  assert (Hlm : ∀ evs, Forall (fun ev => is_model_event ev = true) evs →
                       Forall (fun ev => is_layer_event ev = false) evs).
  { intros evs Hevs. eapply Forall_impl; [exact Hevs|]. by intros []. }
  destruct ((LoadLayers yaml_path ;; LoadModels yaml_path) _) as [[] st|e st|];
    [| |done].
  - destruct Htr as (levs & mevs & Htr & Hlevs & Hmevs). simpl in Htr.
    exists ([EvNewPhysicsWorld (fresh (dom (physics_heap s)));
             EvSetContactListener (fresh (dom (physics_heap s))) true]
            ++ levs ++ mevs).
    split; [by rewrite Htr, <- !app_assoc|].
    rewrite app_assoc. apply layers_first_split; [|by apply Hlm].
    apply Forall_app_2; [by repeat constructor|by apply Hml].
  - destruct Htr as (levs & mevs & Htr & Hlevs & Hmevs). simpl in Htr.
    assert (Hkeep : ∃ evs, trace (env st) = trace s ++ evs ∧ layers_first evs).
    { exists ([EvNewPhysicsWorld (fresh (dom (physics_heap s)));
               EvSetContactListener (fresh (dom (physics_heap s))) true]
              ++ levs ++ mevs).
      split; [by rewrite Htr, <- !app_assoc|].
      rewrite app_assoc. apply layers_first_split; [|by apply Hlm].
      apply Forall_app_2; [by repeat constructor|by apply Hml]. }
    destruct (is_YAML_Exception e || is_PluginException e) eqn:Hclass.
    + rewrite (MakeWorld_catch_spec s) by done. simpl.
      exists (([EvNewPhysicsWorld (fresh (dom (physics_heap s)));
                EvSetContactListener (fresh (dom (physics_heap s))) true]
               ++ levs) ++ mevs ++ teardown_trace (this st) (env st)).
      split; [by rewrite Htr, <- !app_assoc|].
      apply layers_first_split.
      * apply Forall_app_2; [by repeat constructor|by apply Hml].
      * apply Forall_app_2; [by apply Hlm|apply teardown_builds_nothing].
    + apply orb_false_iff in Hclass as [Hy Hp]. unfold MakeWorld_catch.
      by rewrite Hy, Hp.
Qed.


(** X4: whenever [MakeWorld] throws an exception of yaml-cpp, a
    description error or a plugin error, from whichever step, the
    engines, layers and models on the heap are those of before the
    call. *)
Theorem MakeWorld_failure_never_leaks (yaml_path : string) (s : Env)
    (e : Exn) (s' : Env) :
  MakeWorld yaml_path s = Throw e s' →
  is_YAML_Exception e || is_PluginException e = true →
  physics_heap s' = physics_heap s
  ∧ layer_heap s' = layer_heap s
  ∧ model_heap s' = model_heap s.
Proof.
  unfold MakeWorld. unfold bind at 1.
  pose proof (load_yaml_state yaml_path s) as Hy.
  destruct (load_yaml yaml_path s) as [yaml s0|e0 s0|]; [|by intros [= _ <-]; subst|done].
  subst s0. unfold bind at 1.
  destruct (node_get yaml "properties") as [e1|properties]; simpl;
    [by intros [= _ <-]|].
  destruct (_ && _); [|by intros [= _ <-]].
  pose proof (World_ctor_spec s) as Hctor.
  unfold bind at 1. rewrite Hctor. unfold MakeWorld_try.
  pose proof (loaders_own s yaml_path _ (World_ctor_owns s _ _ Hctor)) as Hown.
  destruct ((LoadLayers yaml_path ;; LoadModels yaml_path) _) as [[] st|e0 st|];
    [done| |done].
  destruct (is_YAML_Exception e0 || is_PluginException e0) eqn:Hclass.
  - rewrite (MakeWorld_catch_spec s) by done. intros [= _ <-] _.
    by apply owns_torn_down.
  - apply orb_false_iff in Hclass as [Hy Hp]. unfold MakeWorld_catch.
    rewrite Hy, Hp. intros [= <- _]. by rewrite Hy, Hp.
Qed.

(** X5: the two handlers are all there is: an exception of any other
    class that leaves a loader passes through [MakeWorld] as it is and
    the world is not destroyed: its engine stays on the heap, the world
    still registered as its contact listener, and what the loaders had
    built stays with it. *)
Theorem MakeWorld_uncaught_exception_keeps_world (yaml_path : string) (s : Env)
    (yaml properties : Node) (w : World) (s1 : Env) (e : Exn) (st : WState) :
  LoadFile yaml_path = inr yaml →
  node_get yaml "properties" = inr properties →
  IsDefined properties && IsMap properties = true →
  World_ctor s = Ok w s1 →
  (LoadLayers yaml_path ;; LoadModels yaml_path) {| this := w; env := s1 |}
    = Throw e st →
  is_YAML_Exception e = false →
  is_PluginException e = false →
  MakeWorld yaml_path s = Throw e (env st)
  ∧ physics_heap s !! physics_world_ w = None
  ∧ physics_heap (env st) !! physics_world_ w = Some {| m_contactListener := true |}
  ∧ valid (this st) (env st).
Proof.
  intros Hfile Hget Hmap Hctor Hload Hy Hp.
  pose proof (loaders_own s yaml_path _ (World_ctor_owns s w s1 Hctor)) as Hown.
  pose proof (loaders_engine (physics_heap s1) (physics_world_ w) yaml_path
                {| this := w; env := s1 |} (conj eq_refl eq_refl)) as Heng.
  rewrite Hload in Hown, Heng. destruct Heng as [Hheap Hpw].
  split; [|split; [|split]].
  - rewrite (MakeWorld_unfold yaml_path s yaml properties) by done.
    unfold bind at 1. rewrite Hctor. unfold MakeWorld_try. rewrite Hload.
    unfold MakeWorld_catch. by rewrite Hy, Hp.
  - rewrite World_ctor_spec in Hctor. injection Hctor as <- <-. simpl.
    apply not_elem_of_dom, is_fresh.
  - rewrite Hheap. rewrite World_ctor_spec in Hctor. injection Hctor as <- <-.
    simpl. apply lookup_insert_eq.
  - by apply (owns_valid s).
Qed.

(** X6: the world [MakeWorld] returns has valid pointers only, each
    layer and model once, and is registered as the contact listener of
    its engine; destroying it right away returns and leaves the three
    heaps as they were before [MakeWorld]. *)
Theorem MakeWorld_then_destroy (yaml_path : string) (s : Env) (w : World) (s' : Env) :
  MakeWorld yaml_path s = Ok w s' →
  valid w s'
  ∧ physics_heap s' !! physics_world_ w = Some {| m_contactListener := true |}
  ∧ World_dtor w s' = Ok tt (torn_down w s')
  ∧ physics_heap (torn_down w s') = physics_heap s
  ∧ layer_heap (torn_down w s') = layer_heap s
  ∧ model_heap (torn_down w s') = model_heap s.
Proof.
  intros Hmake. destruct (MakeWorld_returns_loaded _ _ _ _ Hmake) as (w0 & s1 & Hctor & Hload).
  pose proof (loaders_own s yaml_path _ (World_ctor_owns s w0 s1 Hctor)) as Hown.
  pose proof (loaders_engine (physics_heap s1) (physics_world_ w0) yaml_path
                {| this := w0; env := s1 |} (conj eq_refl eq_refl)) as Heng.
  rewrite Hload in Hown, Heng. simpl in Heng. destruct Heng as [Hheap Hpw].
  pose proof (owns_valid s _ Hown) as Hv. simpl in Hv.
  split; [done|]. split.
  - rewrite Hheap, Hpw. rewrite World_ctor_spec in Hctor. injection Hctor as <- <-.
    simpl. apply lookup_insert_eq.
  - split; [by apply World_dtor_spec|].
    apply (owns_torn_down s {| this := w; env := s' |} Hown).
Qed.

(** ** Layers: a builder that throws, a description without models *)

Section RegistryFurther.
Variable registered : CollisionFilterRegistry → nat.
Hypothesis IsLayersFull_spec :
  ∀ c, IsLayersFull c = (MAX_LAYERS <=? Z.of_nat (registered c))%Z.
Hypothesis MakeLayer_registers :
  ∀ pw c dir node obj c',
    Layer_MakeLayer pw c dir node = inr (obj, c') → registered c' = S (registered c).



End RegistryFurther.

(** ** Models in the order of the description *)

(** What an entry of [models] declares: name, namespace, pose and the
    path its model file resolves to. *)
Record ModelDecl := {
  decl_name : string;
  decl_ns : string;
  decl_pose : Pose;
  decl_path : string
}.

Definition declares (yaml_path : string) (node : Node) (d : ModelDecl) : Prop :=
  ∃ kv model_path,
    node = Map kv
    ∧ assoc "name" kv = Scalar (decl_name d)
    ∧ namespace_is kv (decl_ns d)
    ∧ valid_pose (assoc "pose" kv) (decl_pose d)
    ∧ assoc "model" kv = Scalar model_path
    ∧ ∀ st : WState, resolve_model_path yaml_path model_path st = Ok (decl_path d) st.

(** The model builder run on the declarations one after the other for
    the engine [pw], each on the registry the one before has left: the
    models it makes and the registry after the last, or the exception of
    the first declaration it refuses. *)
Fixpoint build_models (pw : addr) (c : CollisionFilterRegistry)
    (decls : list ModelDecl) : Exn + (list Model * CollisionFilterRegistry) :=
  match decls with
  | [] => inr ([], c)
  | d :: decls =>
      match Model_MakeModel pw c (decl_path d) (decl_ns d) (decl_name d) with
      | inl e => inl e
      | inr (obj, c1) =>
          match build_models pw c1 decls with
          | inl e => inl e
          | inr (objs, c') => inr (obj :: objs, c')
          end
      end
  end.

(** The model at [m] as [LoadModel] leaves it on the heap: the object
    the builder made, transformed by the pose of its declaration. *)
Definition placed (d : ModelDecl) (obj : Model) : Model :=
  Model_TransformAll (decl_pose d) obj.

(** The model built for the declaration has no [plugins]. *)
Definition plain (d : ModelDecl) (obj : Model) : Prop :=
  IsDefined (plugins_node_ (placed d obj)) = false.

Definition model_events (m : addr) (d : ModelDecl) : list Event :=
  [EvMakeModel m (decl_path d) (decl_ns d) (decl_name d);
   EvTransformAll m (decl_pose d)].

Lemma LoadModel_plain (path ns name : string) (pose : Pose) (st : WState)
    (obj : Model) (c : CollisionFilterRegistry) :
  Model_MakeModel (physics_world_ (this st)) (cfr_ (this st)) path ns name
    = inr (obj, c) →
  IsDefined (plugins_node_ (Model_TransformAll pose obj)) = false →
  LoadModel path ns name pose st = Ok tt (model_pushed obj c path ns name pose st).
Proof.
  intros Hmake Hplain. rewrite LoadModel_unfold, Hmake.
  unfold LoadModel_plugins, bind, in_env, deref_Model. simpl.
  rewrite lookup_insert_eq. simpl. by rewrite Hplain.
Qed.

Lemma LoadModels_entry_declared (yaml_path : string) (models : Node) (i : nat)
    (d : ModelDecl) (st : WState) :
  declares yaml_path (node_index models i) d →
  LoadModels_entry yaml_path models i st
  = LoadModel (decl_path d) (decl_ns d) (decl_name d) (decl_pose d) st.
Proof.
  intros (kv & model_path & Hnode & Hname & Hns & Hpose & Hmodel & Hres).
  rewrite (entry_resolved yaml_path _ _ kv Hnode _ _ Hname Hns _ Hpose model_path)
    by done.
  by rewrite (bind_ok _ _ _ _ _ (Hres st)).
Qed.

Lemma LoadModels_loop_plain (yaml_path : string) (entries : list Node)
    (c' : CollisionFilterRegistry) :
  ∀ (rest : list Node) (decls : list ModelDecl) (objs : list Model)
    (pre : list Node) (st : WState),
    entries = pre ++ rest →
    Forall2 (declares yaml_path) rest decls →
    build_models (physics_world_ (this st)) (cfr_ (this st)) decls = inr (objs, c') →
    Forall2 plain decls objs →
    ∃ st' new,
      for_from (length pre) (length rest)
        (LoadModels_entry yaml_path (Sequence entries)) st = Ok tt st'
      ∧ models_ (this st') = models_ (this st) ++ new
      ∧ length new = length decls
      ∧ trace (env st') =
          trace (env st) ++ concat (zip_with model_events new decls)
      ∧ plugin_manager_ (this st') = plugin_manager_ (this st)
      ∧ cfr_ (this st') = c'
      ∧ Forall2 (fun m o => model_heap (env st') !! m = Some o) new
          (zip_with placed decls objs)
      ∧ (∀ a o, model_heap (env st) !! a = Some o →
                model_heap (env st') !! a = Some o).
Proof.
  intros rest decls objs pre st Hsplit Hdecl. revert objs pre st Hsplit.
  induction Hdecl as [|node d rest decls Hd Hdecl IH];
    intros objs pre st Hsplit Hbuild Hplain.
  - simpl in Hbuild. injection Hbuild as <- <-.
    exists st, []. simpl. rewrite !app_nil_r.
    repeat split; done.
  - simpl in Hbuild.
    destruct (Model_MakeModel (physics_world_ (this st)) (cfr_ (this st))
                (decl_path d) (decl_ns d) (decl_name d)) as [|[obj c]] eqn:Hmake;
      [done|].
    destruct (build_models (physics_world_ (this st)) c decls)
      as [|[objs1 c1]] eqn:Hrest; [done|].
    injection Hbuild as <- <-.
    apply Forall2_cons in Hplain as [Hnoplug Hplain].
    assert (Hentry : LoadModels_entry yaml_path (Sequence entries) (length pre) st
              = Ok tt (model_pushed obj c (decl_path d) (decl_ns d) (decl_name d)
                         (decl_pose d) st)).
    { rewrite (LoadModels_entry_declared _ _ _ d).
      - by apply LoadModel_plain.
      - simpl. rewrite Hsplit, list_lookup_middle by done. done. }
    destruct (IH objs1 (pre ++ [node])
                (model_pushed obj c (decl_path d) (decl_ns d) (decl_name d)
                   (decl_pose d) st))
      as (st' & new & Hrun & Hmodels & Hlen & Htr & Hpm & Hcfr & Hheap & Hmono);
      [by rewrite <- app_assoc|done|done|].
    rewrite length_app, Nat.add_1_r in Hrun.
    assert (Hfresh : model_heap (env st) !! fresh (dom (model_heap (env st))) = None).
    { apply not_elem_of_dom, is_fresh. }
    exists st', (fresh (dom (model_heap (env st))) :: new).
    split; [simpl; by rewrite (bind_ok _ _ _ _ _ Hentry)|].
    split; [by rewrite Hmodels; simpl; rewrite <- app_assoc|].
    split; [by simpl; rewrite Hlen|].
    split; [rewrite Htr; simpl; by rewrite <- app_assoc|].
    split; [done|]. split; [done|]. split.
    + simpl. constructor; [|done]. apply Hmono. simpl. apply lookup_insert_eq.
    + intros a o Ha. apply Hmono. simpl. rewrite lookup_insert_ne; [done|].
      intros <-. congruence.
Qed.

(** X9: when every entry of [models] declares a name, a pose of three
    numbers and a model file, and the builder accepts them one after
    the other, each on the registry the one before has left, with
    models that have no plugins, [LoadModels] returns with one model per
    entry appended to [models_] in the order of the description, each
    built from its own resolved path, namespace and name and transformed
    once, by its own pose, right after it was built; the models on the
    heap are the objects the builder made, transformed, the registry is
    the one the last entry has left, and the plugin manager is not
    touched. *)
Theorem LoadModels_in_order (yaml_path : string) (yaml : Node)
    (entries : list Node) (decls : list ModelDecl) (st : WState)
    (objs : list Model) (c' : CollisionFilterRegistry) :
  LoadFile yaml_path = inr yaml →
  node_get yaml "models" = inr (Sequence entries) →
  Forall2 (declares yaml_path) entries decls →
  build_models (physics_world_ (this st)) (cfr_ (this st)) decls = inr (objs, c') →
  Forall2 plain decls objs →
  ∃ st' new,
    LoadModels yaml_path st = Ok tt st'
    ∧ models_ (this st') = models_ (this st) ++ new
    ∧ length new = length entries
    ∧ trace (env st') = trace (env st) ++ concat (zip_with model_events new decls)
    ∧ plugin_manager_ (this st') = plugin_manager_ (this st)
    ∧ cfr_ (this st') = c'
    ∧ Forall2 (fun m o => model_heap (env st') !! m = Some o) new
        (zip_with placed decls objs).
Proof.
  intros Hfile Hget Hdecl Hbuild Hplain.
  destruct (LoadModels_loop_plain yaml_path entries c' entries decls objs [] st)
    as (st' & new & Hrun & Hmodels & Hlen & Htr & Hpm & Hcfr & Hheap & _); [done..|].
  exists st', new. rewrite (LoadModels_sequence _ _ _ _ Hfile Hget).
  split; [done|]. split; [done|]. split; [|done].
  rewrite Hlen. symmetry. by eapply Forall2_length.
Qed.

(** X10: when the model builder throws on an entry whose fields are all
    there, the entries before it loaded, [LoadModels] throws that very
    exception and the state is the one the entries before had left: the
    model is not in [models_], nothing was transformed. *)
Theorem LoadModels_builder_failure (yaml_path : string) (yaml : Node)
    (entries : list Node) (i : nat) (node : Node) (d : ModelDecl) (e : Exn)
    (st0 st : WState) :
  LoadFile yaml_path = inr yaml →
  node_get yaml "models" = inr (Sequence entries) →
  entries !! i = Some node →
  declares yaml_path node d →
  for_range i (LoadModels_entry yaml_path (Sequence entries)) st0 = Ok tt st →
  Model_MakeModel (physics_world_ (this st)) (cfr_ (this st))
    (decl_path d) (decl_ns d) (decl_name d) = inl e →
  LoadModels yaml_path st0 = Throw e st.
Proof.
  intros Hfile Hget Hentry Hdecl Hrun Hfail.
  assert (Hi : i < length entries) by (by eapply lookup_lt_Some).
  rewrite (LoadModels_at _ _ _ _ _ _ Hfile Hget Hi Hrun). apply bind_throw.
  rewrite (LoadModels_entry_declared _ _ _ d) by (simpl; by rewrite Hentry).
  by rewrite LoadModel_unfold, Hfail.
Qed.

(** ** Plugins in the order of the declaration *)

(** The plugins [ps] of the model at [m] load one after the other and
    take the plugin manager from [pm] to [pm']. *)
Inductive loads (m : addr) (obj : Model)
  : PluginManager → list Node → PluginManager → Prop :=
| loads_nil pm : loads m obj pm [] pm
| loads_cons pm pm1 pm' p ps :
    PM_LoadModelPlugin pm m obj p = inr pm1 →
    loads m obj pm1 ps pm' →
    loads m obj pm (p :: ps) pm'.

(** The state after [LoadModelPlugin] was called on [ps] and left the
    plugin manager [pm]. *)
Definition plugins_called (m : addr) (ps : list Node) (pm : PluginManager)
    (st : WState) : WState :=
  {| this := set_plugin_manager pm (this st);
     env := {| physics_heap := physics_heap (env st);
               layer_heap := layer_heap (env st);
               model_heap := model_heap (env st);
               trace := trace (env st) ++ map (EvLoadModelPlugin m) ps |} |}.

Lemma plugins_loop (m : addr) (obj : Model) (pre : list Node) (pm' : PluginManager) :
  ∀ (st : WState) (k : M WState unit),
    model_heap (env st) !! m = Some obj →
    loads m obj (plugin_manager_ (this st)) pre pm' →
    (for_each pre (call_LoadModelPlugin m) ;; k) st
    = k (plugins_called m pre pm' st).
Proof.
  intros st k Hobj Hloads. revert st Hobj Hloads.
  induction pre as [|p pre IH]; intros st Hobj Hloads.
  - inversion Hloads; subst. simpl. unfold bind, ret. f_equal.
    unfold plugins_called. simpl. rewrite app_nil_r.
    destruct st as [[] []]. done.
  - inversion Hloads as [|? pm1 ? ? ? Hp Hrest]; subst. simpl.
    rewrite bind_assoc.
    assert (Hstep : call_LoadModelPlugin m p st
              = Ok tt (plugins_called m [p] pm1 st)).
    { unfold call_LoadModelPlugin. by rewrite Hobj, Hp. }
    rewrite (bind_ok _ _ _ _ _ Hstep).
    rewrite (IH (plugins_called m [p] pm1 st)) by done.
    f_equal. unfold plugins_called. simpl. by rewrite <- app_assoc.
Qed.

(** X11: the plugins of a model are loaded in the order of its
    [plugins] sequence, each call made on the plugin manager the one
    before left.  When all load, [LoadModel] returns.  When one throws,
    [LoadModel] throws that very exception, the plugins before it are
    loaded, the ones after it were never given to the plugin manager,
    and the model stays in [models_].  A model whose [plugins] is
    missing or empty loads with no call at all. *)
Theorem LoadModel_plugins_in_order (path ns name : string) (pose : Pose)
    (st : WState) (obj : Model) (c : CollisionFilterRegistry) :
  Model_MakeModel (physics_world_ (this st)) (cfr_ (this st)) path ns name
    = inr (obj, c) →
  let m := fresh (dom (model_heap (env st))) in
  let st1 := model_pushed obj c path ns name pose st in
  let obj' := Model_TransformAll pose obj in
  (∀ ps pm',
     plugins_node_ obj' = Sequence ps →
     loads m obj' (plugin_manager_ (this st)) ps pm' →
     LoadModel path ns name pose st = Ok tt (plugins_called m ps pm' st1))
  ∧ (∀ pre p post pm1 e,
       plugins_node_ obj' = Sequence (pre ++ p :: post) →
       loads m obj' (plugin_manager_ (this st)) pre pm1 →
       PM_LoadModelPlugin pm1 m obj' p = inl e →
       LoadModel path ns name pose st
       = Throw e (plugins_called m (pre ++ [p]) pm1 st1))
  ∧ (plugins_node_ obj' = Undefined ∨ plugins_node_ obj' = Sequence [] →
     LoadModel path ns name pose st = Ok tt st1).
Proof.
  intros Hmake m st1 obj'.
  assert (Hobj : model_heap (env st1) !! m = Some obj') by apply lookup_insert_eq.
  assert (Hunfold : ∀ ps, plugins_node_ obj' = Sequence ps →
            LoadModel path ns name pose st
            = (for_each ps (call_LoadModelPlugin m) ;; ret tt) st1).
  { intros ps Hps. rewrite LoadModel_unfold, Hmake. fold m st1.
    unfold LoadModel_plugins. unfold bind at 1. unfold in_env, deref_Model.
    rewrite Hobj. simpl. fold obj'. rewrite Hps. simpl.
    unfold bind. by destruct (for_each ps _ _) as [[] ?| |]. }
  split; [|split].
  - intros ps pm' Hps Hloads. rewrite (Hunfold ps Hps).
    by rewrite (plugins_loop m obj' ps pm').
  - intros pre p post pm1 e Hps Hloads Hfail. rewrite (Hunfold _ Hps).
    rewrite bind_assoc_unit, for_each_app.
    rewrite (plugins_loop m obj' pre pm1 st1) by done.
    simpl. apply bind_throw. unfold call_LoadModelPlugin.
    change (model_heap (env (plugins_called m pre pm1 st1)))
      with (model_heap (env st1)).
    rewrite Hobj. simpl. rewrite Hfail. unfold plugins_called, on_env, log. simpl.
    by rewrite map_app, app_assoc.
  - intros [Hnone|Hempty].
    + apply LoadModel_plain; [done|]. fold obj'. by rewrite Hnone.
    + rewrite (Hunfold [] Hempty). simpl. unfold bind, ret. by destruct st1 as [[] []].
Qed.

(** ** The life of a world *)

(** [n] calls of [Update] in a row, each on the timekeeper the one
    before has stepped. *)
Fixpoint Update_times (n : nat) (timekeeper : Timekeeper) : M WState Timekeeper :=
  match n with
  | O => ret timekeeper
  | S k => timekeeper' <- Update timekeeper ;; Update_times k timekeeper'
  end.

Lemma Update_times_spec (n : nat) :
  ∀ (timekeeper : Timekeeper) (st : WState),
    is_Some (physics_heap (env st) !! physics_world_ (this st)) →
    ∃ st',
      Update_times n timekeeper st = Ok (Nat.iter n StepTime timekeeper) st'
      ∧ count_steps (trace (env st')) = n + count_steps (trace (env st))
      ∧ physics_heap (env st') = physics_heap (env st)
      ∧ layer_heap (env st') = layer_heap (env st)
      ∧ model_heap (env st') = model_heap (env st)
      ∧ physics_world_ (this st') = physics_world_ (this st)
      ∧ layers_ (this st') = layers_ (this st)
      ∧ models_ (this st') = models_ (this st).
Proof.
  induction n as [|n IH]; intros timekeeper st Hlive.
  - by exists st.
  - destruct (IH (StepTime timekeeper) (updated timekeeper st)) as
      (st' & Hrun & Hcount & H1 & H2 & H3 & H4 & H5 & H6); [done|].
    exists st'. split.
    { rewrite Nat.iter_succ_r. cbn [Update_times].
      by rewrite (bind_ok _ _ _ _ _ (Update_spec timekeeper st Hlive)). }
    split; [|done].
    rewrite Hcount. unfold count_steps. simpl.
    rewrite List.filter_app, length_app. simpl. lia.
Qed.

(** X12: [n] calls of [Update] on a world whose engine is alive all
    return; the engine made [n] steps, the timekeeper was stepped [n]
    times, and no layer, model or engine was created or freed and no
    pointer of the world changed. *)
Theorem Update_times_steps (n : nat) (timekeeper : Timekeeper) (st : WState) :
  is_Some (physics_heap (env st) !! physics_world_ (this st)) →
  ∃ st',
    Update_times n timekeeper st = Ok (Nat.iter n StepTime timekeeper) st'
    ∧ count_steps (trace (env st')) = n + count_steps (trace (env st))
    ∧ physics_heap (env st') = physics_heap (env st)
    ∧ layer_heap (env st') = layer_heap (env st)
    ∧ model_heap (env st') = model_heap (env st)
    ∧ physics_world_ (this st') = physics_world_ (this st)
    ∧ layers_ (this st') = layers_ (this st)
    ∧ models_ (this st') = models_ (this st).
Proof. apply Update_times_spec. Qed.

(** X13: a world that [MakeWorld] returned can be stepped any number of
    times and then destroyed: every call is defined, and after the
    destructor the engines, layers and models on the heap are those of
    before [MakeWorld]. *)
Theorem World_lifecycle (yaml_path : string) (s : Env) (w : World) (s1 : Env)
    (n : nat) (timekeeper : Timekeeper) :
  MakeWorld yaml_path s = Ok w s1 →
  ∃ st',
    Update_times n timekeeper {| this := w; env := s1 |}
      = Ok (Nat.iter n StepTime timekeeper) st'
    ∧ World_dtor (this st') (env st') = Ok tt (torn_down (this st') (env st'))
    ∧ physics_heap (torn_down (this st') (env st')) = physics_heap s
    ∧ layer_heap (torn_down (this st') (env st')) = layer_heap s
    ∧ model_heap (torn_down (this st') (env st')) = model_heap s.
Proof.
  intros Hmake.
  destruct (MakeWorld_returns_loaded _ _ _ _ Hmake) as (w0 & s0 & Hctor & Hload).
  pose proof (loaders_own s yaml_path _ (World_ctor_owns s w0 s0 Hctor)) as Hown.
  rewrite Hload in Hown.
  destruct (Update_times_spec n timekeeper {| this := w; env := s1 |}) as
    (st' & Hrun & _ & H1 & H2 & H3 & H4 & H5 & H6).
  { apply (valid_physics _ _ (owns_valid s _ Hown)). }
  assert (Hown' : owns s st') by (by apply (owns_frame s {| this := w; env := s1 |})).
  exists st'. split; [done|].
  split; [by apply World_dtor_spec, (owns_valid s)|]. by apply owns_torn_down.
Qed.

(** X14: the constructor always returns: the engine is new, at an
    address that was free, with the world registered as its contact
    listener; the engines that were there, the layers and the models
    are untouched and the world starts without layers and models.
    Destroying it right away deregisters the listener and deletes the
    engine, and the heaps are as before. *)
Theorem World_ctor_fresh (s : Env) :
  ∃ w s1,
    World_ctor s = Ok w s1
    ∧ physics_heap s !! physics_world_ w = None
    ∧ physics_heap s1 !! physics_world_ w = Some {| m_contactListener := true |}
    ∧ (∀ a, a ≠ physics_world_ w → physics_heap s1 !! a = physics_heap s !! a)
    ∧ layers_ w = [] ∧ models_ w = []
    ∧ layer_heap s1 = layer_heap s ∧ model_heap s1 = model_heap s
    ∧ ∃ s2,
        World_dtor w s1 = Ok tt s2
        ∧ physics_heap s2 = physics_heap s
        ∧ trace s2 =
            trace s
            ++ [EvNewPhysicsWorld (physics_world_ w);
                EvSetContactListener (physics_world_ w) true;
                EvSetContactListener (physics_world_ w) false;
                EvDeletePhysicsWorld (physics_world_ w)].
Proof.
  pose proof (World_ctor_spec s) as Hctor. eexists _, _. split; [exact Hctor|].
  pose proof (World_ctor_owns s _ _ Hctor) as Hown. simpl.
  assert (Hfree : physics_heap s !! fresh (dom (physics_heap s)) = None).
  { apply not_elem_of_dom, is_fresh. }
  split; [done|]. split; [apply lookup_insert_eq|].
  split; [intros a Ha; by apply lookup_insert_ne|].
  do 4 (split; [done|]).
  eexists. split; [by apply World_dtor_spec, (owns_valid s _ Hown)|].
  split.
  - apply (owns_torn_down s _ Hown).
  - simpl. unfold teardown_trace. simpl. by rewrite <- app_assoc.
Qed.

(** ** The directory of the world file *)

Lemma list_ascii_of_string_app (a b : string) :
  list_ascii_of_string (a +:+ b) = list_ascii_of_string a ++ list_ascii_of_string b.
Proof. induction a as [|c a IH]; simpl; [done|]. by rewrite IH. Qed.

Lemma last_char_rev (s : string) :
  last_char s = head (rev (list_ascii_of_string s)).
Proof.
  induction s as [|c s IH]; [done|]. simpl.
  destruct s as [|c' s']; [done|]. rewrite IH. simpl.
  destruct (rev (list_ascii_of_string s') ++ [c']) eqn:Hr; [|done].
  by destruct (rev (list_ascii_of_string s')).
Qed.

Lemma drop_filename_app (l r : list ascii) :
  Forall (fun a => a ≠ "/"%char) l →
  drop_filename (l ++ "/"%char :: r) = "/"%char :: r.
Proof.
  induction 1 as [|a l Ha Hl IH]; [done|]. simpl.
  unfold is_separator. by rewrite (proj2 (Ascii.eqb_neq _ _) Ha).
Qed.

Lemma strip_separators_name (d : ascii) (r : list ascii) :
  d ≠ "/"%char → strip_separators (d :: r) = d :: r.
Proof.
  intros Hd. destruct r; [done|]. simpl.
  unfold is_separator. by rewrite (proj2 (Ascii.eqb_neq _ _) Hd).
Qed.

Lemma parent_path_file (dir file : string) (d : ascii) :
  last_char dir = Some d → d ≠ "/"%char →
  Forall (fun a => a ≠ "/"%char) (list_ascii_of_string file) →
  parent_path (dir +:+ String "/" file) = dir.
Proof.
  intros Hlast Hd Hfile. unfold parent_path.
  rewrite list_ascii_of_string_app. simpl. rewrite rev_app_distr. simpl.
  rewrite <- app_assoc. simpl.
  rewrite last_char_rev in Hlast.
  destruct (rev (list_ascii_of_string dir)) as [|d' rd] eqn:Hrd; [done|].
  injection Hlast as ->.
  assert (Hdir : string_of_list_ascii (rev (d :: rd)) = dir).
  { by rewrite <- Hrd, rev_involutive, string_of_list_ascii_of_string. }
  assert (Hrev : Forall (fun a => a ≠ "/"%char) (rev (list_ascii_of_string file))).
  { by apply List.Forall_rev. }
  destruct (rev (list_ascii_of_string file)) as [|a rf] eqn:Hrf.
  - change (string_of_list_ascii (rev (strip_separators (d :: rd))) = dir).
    by rewrite strip_separators_name.
  - assert (Hdrop : drop_filename ((a :: rf) ++ "/"%char :: d :: rd)
              = "/"%char :: d :: rd) by (by apply drop_filename_app).
    apply Forall_cons in Hrev as [Ha Hrf'].
    cbn [app]. unfold is_separator at 1. rewrite (proj2 (Ascii.eqb_neq _ _) Ha).
    cbn [app] in Hdrop. rewrite Hdrop.
    change (strip_separators ("/"%char :: d :: rd)) with (strip_separators (d :: rd)).
    by rewrite strip_separators_name.
Qed.

(** X15: for a world file [dir/file], where [dir] does not end with a
    slash and [file] holds none, a model path that does not start with
    a slash resolves to [dir/model_path], whatever else it holds. *)
Theorem resolve_relative_to_directory {T} (dir file model_path : string)
    (d c : ascii) (s : T) :
  last_char dir = Some d → d ≠ "/"%char →
  Forall (fun a => a ≠ "/"%char) (list_ascii_of_string file) →
  front model_path = Some c → c ≠ "/"%char →
  resolve_model_path (dir +:+ String "/" file) model_path s
  = Ok (dir +:+ String "/" model_path) s.
Proof.
  intros Hlast Hd Hfile Hfront Hc.
  destruct model_path as [|c' rest]; [done|]. injection Hfront as ->.
  rewrite resolve_model_path_nonempty, (proj2 (Ascii.eqb_neq _ _) Hc).
  rewrite (parent_path_file dir file d) by done.
  unfold path_append, is_separator.
  by rewrite (proj2 (Ascii.eqb_neq _ _) Hc), Hlast, (proj2 (Ascii.eqb_neq _ _) Hd).
Qed.

(** ** Debug visualisation *)

Lemma visualize_layers (l : list addr) (s : Env) (calls : list VizCall) :
  (∀ a, a ∈ l → is_Some (layer_heap s !! a)) →
  for_each l Layer_DebugVisualize (s, calls) = Ok tt (s, calls ++ map VizLayer l).
Proof.
  revert calls. induction l as [|a l IH]; intros calls Hlive; simpl.
  - by rewrite app_nil_r.
  - destruct (Hlive a) as [obj Hobj]; [left|].
    unfold bind at 1. unfold Layer_DebugVisualize at 1. simpl. rewrite Hobj.
    rewrite IH by (intros b Hb; apply Hlive; by right).
    by rewrite <- app_assoc.
Qed.

Lemma visualize_models (l : list addr) (s : Env) (calls : list VizCall) :
  (∀ a, a ∈ l → is_Some (model_heap s !! a)) →
  for_each l Model_DebugVisualize (s, calls) = Ok tt (s, calls ++ map VizModel l).
Proof.
  revert calls. induction l as [|a l IH]; intros calls Hlive; simpl.
  - by rewrite app_nil_r.
  - destruct (Hlive a) as [obj Hobj]; [left|].
    unfold bind at 1. unfold Model_DebugVisualize at 1. simpl. rewrite Hobj.
    rewrite IH by (intros b Hb; apply Hlive; by right).
    by rewrite <- app_assoc.
Qed.

(** X16: on the world [MakeWorld] returned, [DebugVisualize] follows
    live pointers only: it returns, having called every model once, in
    the order of [models_], and before them every layer, in the order of
    [layers_], when [update_layers] is set and no layer when it is not;
    the environment is unchanged. *)
Theorem DebugVisualize_after_MakeWorld (yaml_path : string) (s : Env)
    (w : World) (s1 : Env) (update_layers : bool) (calls : list VizCall) :
  MakeWorld yaml_path s = Ok w s1 →
  DebugVisualize update_layers w (s1, calls)
  = Ok tt (s1, calls
               ++ (if update_layers then map VizLayer (layers_ w) else [])
               ++ map VizModel (models_ w)).
Proof.
  intros Hmake.
  destruct (MakeWorld_returns_loaded _ _ _ _ Hmake) as (w0 & s0 & Hctor & Hload).
  pose proof (loaders_own s yaml_path _ (World_ctor_owns s w0 s0 Hctor)) as Hown.
  rewrite Hload in Hown. destruct (owns_valid s _ Hown) as [_ _ Hl _ Hm].
  simpl in Hl, Hm. unfold DebugVisualize. destruct update_layers.
  - unfold bind. rewrite visualize_layers by done.
    rewrite visualize_models by done. by rewrite <- app_assoc.
  - unfold bind, ret. by rewrite visualize_models.
Qed.

End Properties.

(** ** Contact forwarding *)

Section ContactProperties.
Context {X : Collaborators} {H : ContactHooks}.

(** X17: the contact listener is a pass-through: whatever callbacks
    Box2D raises, in whatever number, the plugin manager ends as if it
    had received each of them itself, in the same order and with the
    same arguments; none is dropped, repeated or reordered, and nothing
    else of the world or of the environment changes. *)
Theorem World_contact_pass_through (cs : list Contact) (st : WState) :
  ∃ st',
    for_each cs World_contact st = Ok tt st'
    ∧ plugin_manager_ (this st')
      = foldl (fun pm c => PM_contact c pm) (plugin_manager_ (this st)) cs
    ∧ env st' = env st
    ∧ physics_world_ (this st') = physics_world_ (this st)
    ∧ layers_ (this st') = layers_ (this st)
    ∧ models_ (this st') = models_ (this st)
    ∧ cfr_ (this st') = cfr_ (this st).
Proof.
  revert st. induction cs as [|c cs IH]; intros st.
  - by exists st.
  - set (st1 := on_this (set_plugin_manager (PM_contact c (plugin_manager_ (this st)))) st).
    assert (Hstep : World_contact c st = Ok tt st1) by (by destruct c).
    destruct (IH st1) as (st' & Hrun & Hpm & Henv & H1 & H2 & H3 & H4).
    exists st'. simpl. by rewrite (bind_ok _ _ _ _ _ Hstep).
Qed.

End ContactProperties.

(** * Concrete runs *)

Import Demo.



Lemma demo_valid_pose : valid_pose (X:=demo) pose_123 (1, 2, 3)%Z.
Proof. by exists (Scalar "1"), (Scalar "2"), (Scalar "3"), 1%Z, 2%Z, 3%Z. Qed.

Lemma state0_owns : owns (X:=demo) empty_env state0.
Proof. by apply (World_ctor_owns (X:=demo)). Qed.

Lemma world_state_owns : owns (X:=demo) empty_env world_state.
Proof. exact (loaders_own (X:=demo) empty_env "/a/b/world.yaml" state0 state0_owns). Qed.

Lemma MakeWorld_failure_destroys_world_witness :
  let st := plugin_fails_state in
  World_dtor (X:=demo) (this st) (env st) = Ok tt (torn_down (this st) (env st))
  ∧ MakeWorld (X:=demo) "/a/b/plugin_fails.yaml" empty_env
    = Throw (PluginException "cannot load plugin") (torn_down (this st) (env st))
  ∧ (∀ w' s', MakeWorld (X:=demo) "/a/b/plugin_fails.yaml" empty_env ≠ Ok w' s')
  ∧ physics_heap (torn_down (this st) (env st)) = ∅
  ∧ layer_heap (torn_down (this st) (env st)) = ∅
  ∧ model_heap (torn_down (this st) (env st)) = ∅.
Proof.
  apply (MakeWorld_failure_destroys_world (X:=demo) "/a/b/plugin_fails.yaml"
           empty_env plugin_fails_yaml (Map []) world0 env0
           (PluginException "cannot load plugin") plugin_fails_state);
    reflexivity.
Defined.

Lemma World_dtor_order_witness :
  valid (X:=demo) (this world_state) (env world_state)
  ∧ ∃ s', World_dtor (X:=demo) (this world_state) (env world_state) = Ok tt s'
    ∧ trace s' =
        trace (env world_state)
        ++ [EvSetContactListener 0 false;
            EvNullPhysicsBody 0;
            EvDeleteLayer 0 {| name_ := "map"; body_ := {| physics_body_ := None |} |};
            EvNullPhysicsBody 1;
            EvDeleteLayer 1 {| name_ := "walls"; body_ := {| physics_body_ := None |} |};
            EvDeleteModel 0;
            EvDeletePhysicsWorld 0].
Proof.
  assert (Hv : valid (X:=demo) (this world_state) (env world_state)).
  { exact (owns_valid (X:=demo) empty_env world_state world_state_owns). }
  split; [exact Hv|].
  destruct (World_dtor_order (X:=demo) (this world_state) (env world_state) Hv)
    as (s' & Hrun & Htrace & _).
  exists s'. split; [exact Hrun|]. rewrite Htrace. reflexivity.
Defined.

(** Counterexample for C2 read with a pointer back to the layer: on the
    second world made from [/a/b/world.yaml], whose layers are at 2 and
    3, the destructor returns, and the pointers it sets to null before
    it deletes these layers are the pointers of their bodies to the
    Box2D bodies 0 and 1; it is not true that the pointer set to null
    for a layer points to the layer object. *)
Lemma World_dtor_nulls_physics_body :
  World_dtor (X:=demo) (this second_world) (env second_world)
  = Ok tt (torn_down (this second_world) (env second_world))
  ∧ layers_ (this second_world) = [2; 3]
  ∧ layer_heap (env second_world) !! 2
    = Some {| name_ := "map"; body_ := {| physics_body_ := Some 0 |} |}
  ∧ layer_teardown (X:=demo) (layer_heap (env second_world)) 2
    = [EvNullPhysicsBody 2;
       EvDeleteLayer 2 {| name_ := "map"; body_ := {| physics_body_ := None |} |}]
  ∧ nulled_pointer (env second_world) 2 = Some (PhysicsBody 0)
  ∧ nulled_pointer (env second_world) 3 = Some (PhysicsBody 1)
  ∧ ¬ (∀ l, l ∈ layers_ (this second_world) →
            nulled_pointer (env second_world) l = Some (LayerObject l)).
Proof.
  split; [reflexivity|]. split; [reflexivity|]. split; [reflexivity|].
  split; [reflexivity|]. split; [reflexivity|]. split; [reflexivity|].
  intros Hback. specialize (Hback 2). discriminate Hback. constructor.
Qed.

Lemma Update_order_witness :
  ∃ st',
    Update (X:=demo) (H:=demo_hooks) (B:=demo_box2d) (timekeeper 0 1) world_state
    = Ok (timekeeper 1 1) st'
  ∧ trace (env st') =
      trace (env world_state)
      ++ [EvBeforePhysicsStep (timekeeper 0 1); EvStep (X:=demo) 0 1%Z 10 10;
          EvStepTime (timekeeper 0 1); EvAfterPhysicsStep (timekeeper 1 1)]
  ∧ count_steps (trace (env st')) = 1
  ∧ plugin_manager_ (this st') = plugins ["before"; "begin"; "end"; "after"]%string.
Proof.
  destruct (Update_order (X:=demo) (hooks:=demo_hooks) (box2d:=demo_box2d)
              (timekeeper 0 1) world_state)
    as (st' & Hrun & Htr & Hcount & Hpm).
  - exists {| m_contactListener := true |}. reflexivity.
  - exists st'. split; [exact Hrun|]. split; [exact Htr|].
    split; [exact Hcount|exact Hpm].
Defined.




Lemma model_path_resolution_witness :
  LoadModels_entry (X:=demo) "/a/b/world.yaml"
    (Sequence [model_entry "r1" "foo.yaml"]) 0 state0
  = LoadModel (X:=demo) "/a/b/foo.yaml" EmptyString "r1" pose123 state0.
Proof.
  apply (proj2 (proj2 (proj2 (model_path_resolution (X:=demo))))
           "/a/b/world.yaml"%string (Sequence [model_entry "r1" "foo.yaml"]) 0
           (model_fields "r1" "foo.yaml") "r1"%string EmptyString pose123
           "foo.yaml"%string "/a/b/foo.yaml"%string state0).
  - reflexivity.
  - reflexivity.
  - left. split; reflexivity.
  - exact demo_valid_pose.
  - reflexivity.
  - reflexivity.
Defined.

(** C8: with [models: r1], a scalar, in the world file, [LoadModels]
    throws the description error whose message is
    [Invalid world param "layers", must be a sequence]: it names
    [layers], and [models] does not occur in it. *)
Theorem LoadModels_scalar_models_message :
  node_get models_scalar_yaml "models" = inr (Scalar "r1")
  ∧ LoadModels (X:=demo) "/a/b/models_scalar.yaml" state0
    = Throw (YAMLException ("Invalid world param " +:+ quoted "layers"
                            +:+ ", must be a sequence")) state0
  ∧ contains "models"
      ("Invalid world param " +:+ quoted "layers" +:+ ", must be a sequence") = false
  ∧ contains "layers"
      ("Invalid world param " +:+ quoted "layers" +:+ ", must be a sequence") = true.
Proof.
  split; [reflexivity|]. split; [|split; reflexivity].
  by rewrite (LoadModels_not_sequence (X:=demo) "/a/b/models_scalar.yaml"
                models_scalar_yaml (Scalar "r1")).
Qed.

Lemma LoadModel_pushes_before_plugins_witness :
  let st1 := model_pushed (X:=demo) x_foo 0 "/x/foo.yaml" EmptyString "r1"
               pose123 state0 in
  LoadModel (X:=demo) "/x/foo.yaml" EmptyString "r1" pose123 state0
  = Throw (YAMLException ("Invalid " +:+ quoted "plugins" +:+ " in r1 model, not a list"))
      st1
  ∧ models_ (this st1) = [0]
  ∧ model_heap (env st1) !! 0 = Some (demo_TransformAll pose123 x_foo)
  ∧ model_heap (torn_down (this st1) (env st1)) = ∅.
Proof.
  intros st1.
  destruct (LoadModel_pushes_before_plugins (X:=demo) empty_env "/x/foo.yaml"
              EmptyString "r1" pose123 state0 x_foo 0 state0_owns eq_refl)
    as (_ & _ & _ & _ & Hbad & Hthrow).
  pose proof (Hbad eq_refl) as Hrun.
  destruct (Hthrow _ _ Hrun) as (Hmodels & Hheap & _ & _ & _ & _ & Hgone).
  split; [exact Hrun|]. split; [exact Hmodels|]. split; [exact Hheap|exact Hgone].
Defined.

Lemma model_path_front_precondition_witness :
  LoadModels_entry (X:=demo) "/a/b/empty_model.yaml"
    (Sequence [model_entry "r1" EmptyString]) 0 state0 = Undef.
Proof.
  apply (proj2 (proj2 (proj2 (model_path_front_precondition (X:=demo))))
           "/a/b/empty_model.yaml"%string (Sequence [model_entry "r1" EmptyString]) 0
           (model_fields "r1" EmptyString) "r1"%string EmptyString pose123 state0).
  - reflexivity.
  - reflexivity.
  - left. split; reflexivity.
  - exact demo_valid_pose.
  - reflexivity.
Defined.

(** ** Further runs *)

Example parent_path_examples :
  parent_path "/a/b/world.yaml" = "/a/b"%string
  ∧ parent_path "world.yaml" = EmptyString
  ∧ parent_path "/world.yaml" = "/"%string
  ∧ parent_path "/a/b/" = "/a/b"%string.
Proof. repeat split; reflexivity. Qed.

Example path_append_examples :
  path_append "/a/b" "foo.yaml" = "/a/b/foo.yaml"%string
  ∧ path_append "/" "foo.yaml" = "/foo.yaml"%string
  ∧ path_append EmptyString "foo.yaml" = "foo.yaml"%string.
Proof. repeat split; reflexivity. Qed.

(** A world file next to no directory: the model path stays relative. *)
Example resolve_beside_world :
  resolve_model_path (T:=unit) "world.yaml" "foo.yaml" tt = Ok "foo.yaml"%string tt.
Proof. reflexivity. Qed.

(** The world of [/a/b/world.yaml]: two layers in the order of the
    file, one model, loaded from [/a/b/foo.yaml]. *)
Example MakeWorld_world_yaml :
  MakeWorld (X:=demo) "/a/b/world.yaml" empty_env
  = Ok (this world_state) (env world_state)
  ∧ layers_ (this world_state) = [0; 1]
  ∧ name_ <$> layer_heap (env world_state) !! 0 = Some "map"%string
  ∧ name_ <$> layer_heap (env world_state) !! 1 = Some "walls"%string
  ∧ trace (env world_state) =
      [EvNewPhysicsWorld 0; EvSetContactListener 0 true;
       EvMakeLayer 0 "/a/b" (layer_entry "map");
       EvMakeLayer 1 "/a/b" (layer_entry "walls");
       EvMakeModel 0 "/a/b/foo.yaml" EmptyString "r1";
       EvTransformAll 0 pose123].
Proof. repeat split; reflexivity. Qed.

(** An empty [model] string: [MakeWorld] has no defined outcome. *)
Example MakeWorld_empty_model :
  MakeWorld (X:=demo) "/a/b/empty_model.yaml" empty_env = Undef.
Proof. reflexivity. Qed.

(** A world file that cannot be loaded: the error of yaml-cpp wrapped
    with the path, and nothing is constructed. *)
Example MakeWorld_bad_file :
  MakeWorld (X:=demo) "/nowhere.yaml" empty_env
  = Throw (YAMLException_with ("Error loading " +:+ quoted "/nowhere.yaml")
             (YAML_Exception "bad file")) empty_env.
Proof. reflexivity. Qed.

(** * Further concrete runs *)

(** The collaborators of the demonstration with other files and
    builders: a layer named [boom] makes the layer builder throw an
    exception that is neither a description nor a plugin error, and the
    model file [/a/b/arm.yaml] declares two plugins that load. *)
Module Demo2.

Definition boom_MakeLayer (pw : addr) (c : nat) (dir : string) (node : Node)
  : Exn + (Layer * nat) :=
  match node with
  | Map kv =>
      match assoc "name" kv with
      | Scalar s =>
          if String.eqb s "boom" then inl (OtherException "boom")
          else inr ({| name_ := s; body_ := {| physics_body_ := Some c |} |}, S c)
      | _ => inl (YAMLException "Missing layer name")
      end
  | _ => inl (YAMLException "Invalid layer")
  end.

Definition arm_MakeModel (pw : addr) (c : nat) (path ns name : string)
  : Exn + (DemoModel * nat) :=
  if String.eqb path "/a/b/arm.yaml" then
    inr ({| demo_name := name;
            demo_plugins := Sequence [Scalar "laser"; Scalar "bumper"];
            demo_poses := [] |}, c)
  else demo_MakeModel pw c path ns name.

Definition no_properties_yaml : Node := Map [("layers"%string, Sequence [])].

Definition boom_yaml : Node :=
  world [layer_entry "map"; layer_entry "boom"; layer_entry "walls"] Undefined.

Definition layers_only_yaml : Node := world [layer_entry "map"] Undefined.

Definition two_models_yaml : Node :=
  world [] (Sequence [model_entry "r1" "foo.yaml"; model_entry "r2" "/a/b/foo.yaml"]).

Definition bad_model_yaml : Node :=
  world [] (Sequence [model_entry "r1" "foo.yaml"; model_entry "r2" "missing.yaml"]).

Definition files (path : string) : string + Node :=
  if String.eqb path "/a/b/no_properties.yaml" then inr no_properties_yaml
  else if String.eqb path "/a/b/boom.yaml" then inr boom_yaml
  else if String.eqb path "/a/b/layers_only.yaml" then inr layers_only_yaml
  else if String.eqb path "/a/b/two_models.yaml" then inr two_models_yaml
  else if String.eqb path "/a/b/bad_model.yaml" then inr bad_model_yaml
  else demo_LoadFile path.

Definition demo2 : Collaborators := {|
  double := Z;
  parse_double := demo_parse;
  LoadFile := files;
  Timekeeper := Z * Z;
  GetStepSize := snd;
  StepTime := fun tk => (fst tk + snd tk, snd tk)%Z;
  CollisionFilterRegistry := nat;
  cfr_new := 0;
  IsLayersFull := fun c => 2 <=? c;
  MAX_LAYERS := 2;
  Layer_MakeLayer := boom_MakeLayer;
  Model := DemoModel;
  model_name_ := demo_name;
  plugins_node_ := demo_plugins;
  Model_MakeModel := arm_MakeModel;
  Model_TransformAll := demo_TransformAll;
  PluginManager := list string;
  pm_new := [];
  PM_LoadModelPlugin := demo_LoadModelPlugin;
  PM_BeforePhysicsStep := fun _ pm => pm ++ ["before"%string];
  PM_AfterPhysicsStep := fun _ pm => pm ++ ["after"%string]
|}.

Definition empty2 : @Env demo2 :=
  {| physics_heap := ∅; layer_heap := ∅; model_heap := ∅; trace := [] |}.

Definition world2 : @World demo2 := @Build_World demo2 0 [] [] 0 [].

Definition env2 : @Env demo2 :=
  Eval vm_compute in outcome_state empty2 (World_ctor (X:=demo2) empty2).

Definition state2 : @WState demo2 := {| this := world2; env := env2 |}.

Definition loaded2 (yaml_path : string) : @WState demo2 :=
  outcome_state state2
    ((LoadLayers (X:=demo2) yaml_path ;; LoadModels yaml_path) state2).

Definition boom_state : @WState demo2 :=
  Eval vm_compute in loaded2 "/a/b/boom.yaml".

Definition layers_only_state : @WState demo2 :=
  Eval vm_compute in loaded2 "/a/b/layers_only.yaml".

Definition two_models_state : @WState demo2 :=
  Eval vm_compute in loaded2 "/a/b/two_models.yaml".

Definition bad_model_state : @WState demo2 :=
  Eval vm_compute in loaded2 "/a/b/bad_model.yaml".

Definition pose2 : @Pose demo2 := (1, 2, 3)%Z.

Definition decl (name path : string) : @ModelDecl demo2 :=
  @Build_ModelDecl demo2 name EmptyString pose2 path.

(** A plugin manager that has loaded the plugins [l]. *)
Definition loaded_plugins (l : list string) : @PluginManager demo2 := l.

(** The model in [/a/b/arm.yaml] and in [/a/b/robot.yaml], as built. *)
Definition as_model (m : DemoModel) : @Model demo2 := m.

Definition arm : @Model demo2 :=
  as_model {| demo_name := "arm";
              demo_plugins := Sequence [Scalar "laser"; Scalar "bumper"];
              demo_poses := [] |}.

Definition robot : @Model demo2 :=
  as_model {| demo_name := "r2";
              demo_plugins := Sequence [Scalar "laser"; Scalar "broken"];
              demo_poses := [] |}.

(** The contact callbacks of the demonstration: the plugin manager
    keeps the name of the callback and the number of the contact. *)
Definition hooks2 : @ContactHooks demo2 := {|
  b2Contact := nat;
  b2Manifold := nat;
  b2ContactImpulse := nat;
  PM_BeginContact := fun c (pm : @PluginManager demo2) => pm ++ ["begin"%string];
  PM_EndContact := fun c (pm : @PluginManager demo2) => pm ++ ["end"%string];
  PM_PreSolve := fun c m (pm : @PluginManager demo2) => pm ++ ["pre"%string];
  PM_PostSolve := fun c i (pm : @PluginManager demo2) => pm ++ ["post"%string]
|}.

(** Contact 7 begins, is solved once with manifold 1, and ends. *)
Definition contacts : list (@Contact demo2 hooks2) :=
  [@Begin demo2 hooks2 7; @Pre demo2 hooks2 7 1; @End_ demo2 hooks2 7].


(** The model in [/a/b/foo.yaml], as built under the name [name]. *)
Definition foo (name : string) : @Model demo2 :=
  as_model {| demo_name := name; demo_plugins := Undefined; demo_poses := [] |}.

End Demo2.

Import Demo2.


Lemma demo2_valid_pose : valid_pose (X:=demo2) pose_123 pose2.
Proof. by exists (Scalar "1"), (Scalar "2"), (Scalar "3"), 1%Z, 2%Z, 3%Z. Qed.

Lemma demo2_declares (name model path : string) :
  (∀ st : @WState demo2,
     resolve_model_path "/a/b/two_models.yaml" model st = Ok path st) →
  declares (X:=demo2) "/a/b/two_models.yaml" (model_entry name model) (decl name path).
Proof.
  intros Hres. exists (model_fields name model), model.
  split; [done|]. split; [done|]. split; [by left|].
  split; [exact demo2_valid_pose|]. by split.
Qed.


Lemma MakeWorld_failure_never_leaks_witness :
  let s' := torn_down (X:=demo) (this plugin_fails_state) (env plugin_fails_state) in
  physics_heap s' = ∅ ∧ layer_heap s' = ∅ ∧ model_heap s' = ∅.
Proof.
  apply (MakeWorld_failure_never_leaks (X:=demo) "/a/b/plugin_fails.yaml" empty_env
           (PluginException "cannot load plugin")); reflexivity.
Defined.

Lemma MakeWorld_uncaught_exception_keeps_world_witness :
  MakeWorld (X:=demo2) "/a/b/boom.yaml" empty2
  = Throw (OtherException "boom") (env boom_state)
  ∧ physics_heap empty2 !! 0 = None
  ∧ physics_heap (env boom_state) !! 0 = Some {| m_contactListener := true |}
  ∧ valid (this boom_state) (env boom_state).
Proof.
  apply (MakeWorld_uncaught_exception_keeps_world (X:=demo2) "/a/b/boom.yaml"
           empty2 boom_yaml (Map []) world2 env2 (OtherException "boom") boom_state);
    reflexivity.
Defined.

Lemma MakeWorld_then_destroy_witness :
  valid (X:=demo) (this world_state) (env world_state)
  ∧ physics_heap (env world_state) !! 0 = Some {| m_contactListener := true |}
  ∧ World_dtor (this world_state) (env world_state)
    = Ok tt (torn_down (this world_state) (env world_state))
  ∧ physics_heap (torn_down (this world_state) (env world_state)) = ∅
  ∧ layer_heap (torn_down (this world_state) (env world_state)) = ∅
  ∧ model_heap (torn_down (this world_state) (env world_state)) = ∅.
Proof.
  apply (MakeWorld_then_destroy (X:=demo) "/a/b/world.yaml" empty_env
           (this world_state) (env world_state)).
  reflexivity.
Defined.



Lemma LoadModels_in_order_witness :
  ∃ st' new,
    LoadModels (X:=demo2) "/a/b/two_models.yaml" state2 = Ok tt st'
    ∧ models_ (this st') = new
    ∧ length new = 2
    ∧ trace (env st') =
        trace env2
        ++ concat (zip_with model_events new
                     [decl "r1" "/a/b/foo.yaml"; decl "r2" "/a/b/foo.yaml"]).
Proof.
  destruct (LoadModels_in_order (X:=demo2) "/a/b/two_models.yaml" two_models_yaml
              [model_entry "r1" "foo.yaml"; model_entry "r2" "/a/b/foo.yaml"]
              [decl "r1" "/a/b/foo.yaml"; decl "r2" "/a/b/foo.yaml"] state2
              [foo "r1"; foo "r2"] 0)
    as (st' & new & Hrun & Hmodels & Hlen & Htr & _).
  - reflexivity.
  - reflexivity.
  - apply Forall2_cons. split; [by apply demo2_declares|].
    apply Forall2_cons. split; [by apply demo2_declares|]. apply Forall2_nil_2.
  - reflexivity.
  - apply Forall2_cons. split; [reflexivity|].
    apply Forall2_cons. split; [reflexivity|]. apply Forall2_nil_2.
  - exists st', new. split; [exact Hrun|]. split; [exact Hmodels|].
    split; [exact Hlen|exact Htr].
Defined.

Lemma LoadModels_builder_failure_witness :
  LoadModels (X:=demo2) "/a/b/bad_model.yaml" state2
  = Throw (YAMLException "Error loading model") bad_model_state
  ∧ models_ (this bad_model_state) = [0].
Proof.
  split; [|reflexivity].
  apply (LoadModels_builder_failure (X:=demo2) "/a/b/bad_model.yaml" bad_model_yaml
           [model_entry "r1" "foo.yaml"; model_entry "r2" "missing.yaml"] 1
           (model_entry "r2" "missing.yaml")
           (@Build_ModelDecl demo2 "r2" EmptyString pose2 "/a/b/missing.yaml")
           (YAMLException "Error loading model") state2 bad_model_state).
  - reflexivity.
  - reflexivity.
  - reflexivity.
  - exists (model_fields "r2" "missing.yaml"), "missing.yaml"%string.
    split; [done|]. split; [done|]. split; [by left|].
    split; [exact demo2_valid_pose|]. by split.
  - reflexivity.
  - reflexivity.
Defined.

Lemma LoadModel_plugins_in_order_witness :
  LoadModel (X:=demo2) "/a/b/arm.yaml" EmptyString "arm" pose2 state2
  = Ok tt (plugins_called 0 [Scalar "laser"; Scalar "bumper"]
             (loaded_plugins ["laser"; "bumper"]%string)
             (model_pushed arm 0 "/a/b/arm.yaml" EmptyString "arm" pose2 state2))
  ∧ LoadModel (X:=demo2) "/a/b/robot.yaml" EmptyString "r2" pose2 state2
    = Throw (PluginException "cannot load plugin")
        (plugins_called 0 [Scalar "laser"; Scalar "broken"]
           (loaded_plugins ["laser"%string])
           (model_pushed robot 0 "/a/b/robot.yaml" EmptyString "r2" pose2 state2)).
Proof.
  split.
  - apply (proj1 (LoadModel_plugins_in_order (X:=demo2) "/a/b/arm.yaml" EmptyString
                    "arm" pose2 state2 arm 0 eq_refl)
             [Scalar "laser"; Scalar "bumper"]
             (loaded_plugins ["laser"; "bumper"]%string)).
    + reflexivity.
    + apply (loads_cons (X:=demo2) _ _ _ (loaded_plugins ["laser"%string]));
        [reflexivity|].
      apply (loads_cons (X:=demo2) _ _ _ (loaded_plugins ["laser"; "bumper"]%string));
        [reflexivity|].
      apply loads_nil.
  - apply (proj1 (proj2 (LoadModel_plugins_in_order (X:=demo2) "/a/b/robot.yaml"
                           EmptyString "r2" pose2 state2 robot 0 eq_refl))
             [Scalar "laser"] (Scalar "broken") [] (loaded_plugins ["laser"%string])
             (PluginException "cannot load plugin")).
    + reflexivity.
    + apply (loads_cons (X:=demo2) _ _ _ (loaded_plugins ["laser"%string]));
        [reflexivity|].
      apply loads_nil.
    + reflexivity.
Defined.

Lemma Update_times_steps_witness :
  ∃ st',
    Update_times (X:=demo) (hooks:=demo_hooks) (box2d:=demo_box2d) 3 (timekeeper 0 1) world_state = Ok (timekeeper 3 1) st'
    ∧ count_steps (trace (env st')) = 3.
Proof.
  destruct (Update_times_steps (X:=demo) (hooks:=demo_hooks) (box2d:=demo_box2d) 3 (timekeeper 0 1) world_state)
    as (st' & Hrun & Hcount & _).
  - by eexists.
  - exists st'. split; [exact Hrun|exact Hcount].
Defined.

Lemma World_lifecycle_witness :
  ∃ st',
    Update_times (X:=demo) (hooks:=demo_hooks) (box2d:=demo_box2d) 2 (timekeeper 0 1) world_state = Ok (timekeeper 2 1) st'
    ∧ World_dtor (this st') (env st') = Ok tt (torn_down (this st') (env st'))
    ∧ model_heap (torn_down (this st') (env st')) = ∅.
Proof.
  destruct (World_lifecycle (X:=demo) (hooks:=demo_hooks) (box2d:=demo_box2d) "/a/b/world.yaml" empty_env
              (this world_state) (env world_state) 2 (timekeeper 0 1))
    as (st' & Hrun & Hdtor & _ & _ & Hmodels).
  - reflexivity.
  - exists st'. split; [exact Hrun|]. split; [exact Hdtor|exact Hmodels].
Defined.

Lemma resolve_relative_to_directory_witness :
  resolve_model_path (T:=unit) "/a/b/world.yaml" "models/foo.yaml" tt
  = Ok "/a/b/models/foo.yaml"%string tt.
Proof.
  apply (resolve_relative_to_directory (T:=unit) "/a/b" "world.yaml"
           "models/foo.yaml" "b" "m" tt).
  - reflexivity.
  - discriminate.
  - repeat (apply Forall_cons; split; [discriminate|]). apply Forall_nil_2.
  - reflexivity.
  - discriminate.
Defined.

Lemma DebugVisualize_after_MakeWorld_witness :
  DebugVisualize (X:=demo) true (this world_state) (env world_state, [])
  = Ok tt (env world_state, [VizLayer 0; VizLayer 1; VizModel 0])
  ∧ DebugVisualize (X:=demo) false (this world_state) (env world_state, [])
    = Ok tt (env world_state, [VizModel 0]).
Proof.
  split.
  - apply (DebugVisualize_after_MakeWorld (X:=demo) "/a/b/world.yaml" empty_env
             (this world_state) (env world_state) true []).
    reflexivity.
  - apply (DebugVisualize_after_MakeWorld (X:=demo) "/a/b/world.yaml" empty_env
             (this world_state) (env world_state) false []).
    reflexivity.
Defined.

Lemma World_contact_pass_through_witness :
  ∃ st',
    for_each contacts (World_contact (H:=hooks2)) state2 = Ok tt st'
    ∧ plugin_manager_ (this st') = loaded_plugins ["begin"; "pre"; "end"]%string.
Proof.
  destruct (World_contact_pass_through (X:=demo2) (H:=hooks2) contacts state2)
    as (st' & Hrun & Hpm & _).
  exists st'. split; [exact Hrun|exact Hpm].
Defined.
